(** * A contact manager: records, address book and the upcoming-birthdays query

    Shallow embedding of [bot/models/record.py], [bot/models/address_book.py]
    and [bot/cli/handlers.py].  Python objects that are mutated in place are
    modelled by explicit state passing; raised exceptions by a result type. *)

From Stdlib Require Import ZArith List String Ascii Bool Lia.
Import ListNotations.

Local Open Scope string_scope.
Local Open Scope Z_scope.

(** ** Python exceptions and fallible computations *)

Module Py.

(** The two exception classes the program can meet, with their message. *)
Inductive exn : Type :=
| ValueError (msg : string)
| OverflowError (msg : string).

Inductive result (A : Type) : Type :=
| Ok (a : A)
| Raise (e : exn).
Arguments Ok {A} a.
Arguments Raise {A} e.

Definition bind {A B : Type} (c : result A) (k : A -> result B) : result B :=
  match c with
  | Ok a => k a
  | Raise e => Raise e
  end.

(** [try: body  except ValueError: handler] *)
Definition try_except_ValueError {A : Type} (body : result A) (handler : A)
  : result A :=
  match body with
  | Raise (ValueError _) => Ok handler
  | other => other
  end.

(** Methods that mutate [self]: the state is threaded explicitly and is
    returned as it stands when an exception is raised. *)
Definition M (S A : Type) : Type := S -> result A * S.

Definition ret {S A : Type} (a : A) : M S A := fun s => (Ok a, s).

Definition raise {S A : Type} (e : exn) : M S A := fun s => (Raise e, s).

Definition lift {S A : Type} (c : result A) : M S A := fun s => (c, s).

Definition mbind {S A B : Type} (c : M S A) (k : A -> M S B) : M S B :=
  fun s =>
    match c s with
    | (Ok a, s') => k a s'
    | (Raise e, s') => (Raise e, s')
    end.

Definition get {S : Type} : M S S := fun s => (Ok s, s).

Definition modify {S : Type} (f : S -> S) : M S unit := fun s => (Ok tt, f s).

(** [sep.join(parts)] *)
Fixpoint join (sep : string) (parts : list string) : string :=
  match parts with
  | [] => ""
  | [s] => s
  | s :: rest => s ++ sep ++ join sep rest
  end.

(** Decimal rendering of a non-negative integer, least significant digit
    first in the accumulator; [fuel] bounds the number of digits. *)
Definition digit_char (d : Z) : ascii :=
  ascii_of_nat (48 + Z.to_nat d).

Fixpoint digits_acc (fuel : nat) (n : Z) (acc : string) : string :=
  match fuel with
  | O => acc
  | S fuel' =>
      let acc' := String (digit_char (n mod 10)) acc in
      if n / 10 =? 0 then acc' else digits_acc fuel' (n / 10) acc'
  end.

(** [str(n)] for [0 <= n]. *)
Definition str_of_Z (n : Z) : string :=
  digits_acc (S (Z.to_nat (Z.log2 n))) n "".

Fixpoint zeros (k : nat) : string :=
  match k with
  | O => ""
  | S k' => String "0" (zeros k')
  end.

(** ["%0<width>d" % n] for [0 <= n]. *)
Definition zero_pad (width : nat) (n : Z) : string :=
  let s := str_of_Z n in
  zeros (width - String.length s) ++ s.

End Py.

Import Py.

Declare Scope py_scope.
Delimit Scope py_scope with py.
Notation "x <- c ;; k" := (Py.bind c (fun x => k))
  (at level 61, c at next level, right associativity) : py_scope.
Notation "x <~ c ;; k" := (Py.mbind c (fun x => k))
  (at level 61, c at next level, right associativity) : py_scope.
Notation "c ;;; k" := (Py.mbind c (fun _ => k))
  (at level 61, right associativity) : py_scope.
Local Open Scope py_scope.

(** ** The [datetime.date] values the program computes with

    [datetime] belongs to the Python standard library; the definitions below
    follow its reference implementation ([_pydatetime.py]): proleptic
    Gregorian dates, ordinals counted from 0001-01-01 = 1. *)

Module Calendar.

Record date : Type := mkdate { year : Z; month : Z; day : Z }.

Definition MINYEAR : Z := 1.
Definition MAXYEAR : Z := 9999.
Definition MAXORDINAL : Z := 3652059.

Definition DAYS_IN_MONTH : list Z :=
  [-1; 31; 28; 31; 30; 31; 30; 31; 31; 30; 31; 30; 31].
Definition DAYS_BEFORE_MONTH : list Z :=
  [-1; 0; 31; 59; 90; 120; 151; 181; 212; 243; 273; 304; 334].

Definition index (table : list Z) (i : Z) : Z := nth (Z.to_nat i) table 0.

Definition is_leap (y : Z) : bool :=
  (y mod 4 =? 0) && (negb (y mod 100 =? 0) || (y mod 400 =? 0)).

Definition days_before_year (y : Z) : Z :=
  let y' := y - 1 in
  y' * 365 + y' / 4 - y' / 100 + y' / 400.

Definition days_in_month (y m : Z) : Z :=
  if (m =? 2) && is_leap y then 29 else index DAYS_IN_MONTH m.

Definition days_before_month (y m : Z) : Z :=
  index DAYS_BEFORE_MONTH m + (if (2 <? m) && is_leap y then 1 else 0).

Definition ymd2ord (y m d : Z) : Z :=
  days_before_year y + days_before_month y m + d.

Definition DI400Y : Z := 146097.
Definition DI100Y : Z := 36524.
Definition DI4Y : Z := 1461.

Definition ord2ymd (ordinal : Z) : date :=
  let n := ordinal - 1 in
  let n400 := n / DI400Y in
  let n := n mod DI400Y in
  let y := n400 * 400 + 1 in
  let n100 := n / DI100Y in
  let n := n mod DI100Y in
  let n4 := n / DI4Y in
  let n := n mod DI4Y in
  let n1 := n / 365 in
  let n := n mod 365 in
  let y := y + n100 * 100 + n4 * 4 + n1 in
  if (n1 =? 4) || (n100 =? 4) then mkdate (y - 1) 12 31
  else
    let leapyear := (n1 =? 3) && (negb (n4 =? 24) || (n100 =? 3)) in
    let m := Z.shiftr (n + 50) 5 in
    let preceding :=
      index DAYS_BEFORE_MONTH m + (if (2 <? m) && leapyear then 1 else 0) in
    if n <? preceding then
      let m := m - 1 in
      let preceding :=
        preceding
        - (index DAYS_IN_MONTH m + (if (m =? 2) && leapyear then 1 else 0)) in
      mkdate y m (n - preceding + 1)
    else mkdate y m (n - preceding + 1).

(** [date(year, month, day)]: the constructor checks its fields. *)
Definition date_new (y m d : Z) : result date :=
  if negb ((MINYEAR <=? y) && (y <=? MAXYEAR)) then
    Raise (ValueError ("year " ++ str_of_Z y ++ " is out of range"))
  else if negb ((1 <=? m) && (m <=? 12)) then
    Raise (ValueError "month must be in 1..12")
  else if negb ((1 <=? d) && (d <=? days_in_month y m)) then
    Raise (ValueError "day is out of range for month")
  else Ok (mkdate y m d).

Definition toordinal (t : date) : Z := ymd2ord (year t) (month t) (day t).

Definition fromordinal (n : Z) : date := ord2ymd n.

(** [t + timedelta(days=n)] *)
Definition add_days (t : date) (n : Z) : result date :=
  let o := toordinal t + n in
  if (0 <? o) && (o <=? MAXORDINAL) then Ok (fromordinal o)
  else Raise (OverflowError "date value out of range").

(** Monday is 0, Sunday is 6. *)
Definition weekday (t : date) : Z := (toordinal t + 6) mod 7.

(** Dates compare as their (year, month, day) triples. *)
Definition cmp (a b : date) : comparison :=
  match year a ?= year b with
  | Eq => match month a ?= month b with
          | Eq => day a ?= day b
          | c => c
          end
  | c => c
  end.

Definition lt (a b : date) : bool :=
  match cmp a b with Lt => true | _ => false end.
Definition le (a b : date) : bool :=
  match cmp a b with Gt => false | _ => true end.

(** [t.strftime("%d.%m.%Y")], as the C library of a Linux system renders
    it: day and month on two digits, the year as it is (a year below 1000
    is not padded to four digits). *)
Definition strftime_dmY (t : date) : string :=
  zero_pad 2 (day t) ++ "." ++ zero_pad 2 (month t) ++ "."
    ++ str_of_Z (year t).

(** The dates a [date] object can hold. *)
Definition valid (t : date) : Prop :=
  MINYEAR <= year t <= MAXYEAR /\ 1 <= month t <= 12
  /\ 1 <= day t <= days_in_month (year t) (month t).

End Calendar.


Import Calendar.

(** ** The value types

    The spec's error kinds are raised as Python's [ValueError]
    ([record.py] line 92 raises it for a birthday that is already set). *)

Definition ValidationError (msg : string) : exn := ValueError msg.
Definition AlreadySetError : exn := ValueError "Birthday is already set".

(** Modelled from the spec: [bot/models/name.py] is not among the sources.
    "Name(raw): stores raw verbatim; no transformation. No failure path." *)
Module Name.
Record t : Type := mk { value : string }.
Definition new (raw : string) : t := mk raw.
End Name.

(** Modelled from the spec: [bot/models/phone.py] is not among the sources.
    "Phone(raw): fails with ValidationError unless raw is exactly 10
    characters, all decimal digits."  The text of the message is not
    specified. *)
Module Phone.
Record t : Type := mk { value : string }.

Definition is_digit (c : ascii) : bool :=
  ((48 <=? nat_of_ascii c) && (nat_of_ascii c <=? 57))%nat.

Fixpoint all_digits (s : string) : bool :=
  match s with
  | EmptyString => true
  | String c rest => is_digit c && all_digits rest
  end.

Definition new (raw : string) : result t :=
  if ((String.length raw =? 10)%nat && all_digits raw)%bool then Ok (mk raw)
  else Raise (ValidationError "Phone number must be 10 digits").

(** [str(phone)] *)
Definition str (p : t) : string := value p.
End Phone.

(** Modelled from the spec: [bot/models/birthday.py] is not among the
    sources.  "Birthday(raw): parses raw as dd.mm.yyyy; fails with
    ValidationError on any parse failure (wrong format, day/month out of
    range, non-existent date such as 31.02)."  The stored value is a calendar
    date; the program reads its month and day only. *)
Module Birthday.
Record t : Type := mk { value : date }.

Definition digit_val (c : ascii) : option Z :=
  if Phone.is_digit c then Some (Z.of_nat (nat_of_ascii c) - 48) else None.

Fixpoint number (cs : list ascii) (acc : Z) : option Z :=
  match cs with
  | [] => Some acc
  | c :: rest =>
      match digit_val c with
      | Some d => number rest (10 * acc + d)
      | None => None
      end
  end.

Definition invalid : exn :=
  ValidationError "Invalid date format. Use DD.MM.YYYY".

Definition new (raw : string) : result t :=
  match list_ascii_of_string raw with
  | [d1; d2; p1; m1; m2; p2; y1; y2; y3; y4] =>
      if (Ascii.eqb p1 "." && Ascii.eqb p2 ".")%bool then
        match number [d1; d2] 0, number [m1; m2] 0,
              number [y1; y2; y3; y4] 0 with
        | Some d, Some m, Some y =>
            match date_new y m d with
            | Ok v => Ok (mk v)
            | Raise _ => Raise invalid
            end
        | _, _, _ => Raise invalid
        end
      else Raise invalid
  | _ => Raise invalid
  end.
End Birthday.

(** ** [class Record] *)

Module Rec.

Record t : Type := mk {
  name : Name.t;
  phones : list Phone.t;
  birthday : option Birthday.t
}.

Definition set_phones (ps : list Phone.t) (self : t) : t :=
  mk (name self) ps (birthday self).
Definition set_birthday (b : option Birthday.t) (self : t) : t :=
  mk (name self) (phones self) b.

Definition init (name : string) : t := mk (Name.new name) [] None.

Definition add_phone (phone_number : string) : M t unit :=
  phone <~ lift (Phone.new phone_number) ;;
  modify (fun self => set_phones (phones self ++ [phone])%list self).

Definition remove_phone (phone_number : string) : M t unit :=
  modify (fun self =>
    set_phones
      (filter (fun p => negb (Phone.value p =? phone_number)%string)
              (phones self))
      self).

Definition edit_phone (old_phone_number new_phone_number : string)
  : M t unit :=
  add_phone new_phone_number ;;;
  remove_phone old_phone_number.

Definition find_phone (phone_number : string) (self : t) : option Phone.t :=
  find (fun phone => (Phone.value phone =? phone_number)%string)
       (phones self).

Definition add_birthday (birthday_str : string) : M t unit :=
  self <~ get ;;
  match birthday self with
  | None =>
      b <~ lift (Birthday.new birthday_str) ;;
      modify (set_birthday (Some b))
  | Some _ => raise AlreadySetError
  end.

Definition show_birthday (self : t) : string :=
  match birthday self with
  | None => "No birthday set"
  | Some b =>
      Name.value (name self) ++ "'s birthday is on "
        ++ strftime_dmY (Birthday.value b)
  end.

(** [__str__]; an empty string is falsy, a [Birthday] object is truthy. *)
Definition str (self : t) : string :=
  let phones_str := join "; " (map Phone.str (phones self)) in
  let phones_str :=
    if (phones_str =? "")%string then "----------" else phones_str in
  let birthday_str :=
    match birthday self with
    | Some b => strftime_dmY (Birthday.value b)
    | None => "----------"
    end in
  "Contact name: " ++ Name.value (name self) ++ ", birthday: "
    ++ birthday_str ++ ", phones: " ++ phones_str.

End Rec.

(** ** [class AddressBook(UserDict)]

    [data] is a Python dict: keys are unique and iteration follows insertion
    order, so it is an association list without repeated keys.  A record
    object is reachable only through its entry, hence mutating the object in
    place is replacing the entry's value ([on_record]).  The query reads the
    clock once per call and once per record; [today] stands for all of these
    readings (the date does not change while one query runs). *)

Module AddressBook.

Definition t : Type := list (string * Rec.t).

(** [data[key] = record] *)
Fixpoint setitem (key : string) (record : Rec.t) (data : t) : t :=
  match data with
  | [] => [(key, record)]
  | (k, r) :: rest =>
      if (k =? key)%string then (k, record) :: rest
      else (k, r) :: setitem key record rest
  end.

(** [data.get(name, None)] *)
Fixpoint find (name : string) (data : t) : option Rec.t :=
  match data with
  | [] => None
  | (k, r) :: rest => if (k =? name)%string then Some r else find name rest
  end.

(** [data.values()] *)
Definition values (data : t) : list Rec.t := map snd data.

Definition add_record (record : Rec.t) : M t unit :=
  modify (setitem (Name.value (Rec.name record)) record).

Definition delete (name : string) : M t unit :=
  modify (fun data =>
    match find name data with
    | Some _ => filter (fun kr => negb (fst kr =? name)%string) data
    | None => data
    end).

(** A method call on the record object stored under [name]. *)
Definition on_record {A : Type} (name : string) (method : M Rec.t A)
  : M t (option A) :=
  fun data =>
    match find name data with
    | None => (Ok None, data)
    | Some record =>
        match method record with
        | (Ok a, record') => (Ok (Some a), setitem name record' data)
        | (Raise e, record') => (Raise e, setitem name record' data)
        end
    end.

Section Query.
Variable today_date : date.

Definition _is_date_within_days (target_date : date) (days : Z)
  : result bool :=
  date_this_year <-
    date_new (year today_date) (month target_date) (day target_date) ;;
  target_date <-
    (if lt date_this_year today_date
     then date_new (year today_date + 1) (month target_date)
                   (day target_date)
     else Ok date_this_year) ;;
  if le today_date target_date then
    limit <- add_days today_date days ;;
    Ok (le target_date limit)
  else Ok false.

Definition _adjust_to_weekday (date_obj : date) : result date :=
  if weekday date_obj =? 5 then add_days date_obj 2
  else if weekday date_obj =? 6 then add_days date_obj 1
  else Ok date_obj.

Definition entry (record : Rec.t) (congratulation_date : date) : string :=
  "Contact name: " ++ Name.value (Rec.name record) ++ ", birthday: "
    ++ strftime_dmY congratulation_date.

(** The body of the [try] statement, for one record with a birthday. *)
Definition try_body (record : Rec.t) (b : Birthday.t)
    (upcoming_birthdays_list : list string) : result (list string) :=
  let days := 7 in
  let user_birthday := Birthday.value b in
  within <- _is_date_within_days user_birthday days ;;
  if within : bool then
    let month := month user_birthday in
    let day := day user_birthday in
    birthday_this_year <- date_new (year today_date) month day ;;
    congratulation_date <-
      (if lt birthday_this_year today_date
       then date_new (year today_date + 1) month day
       else Ok birthday_this_year) ;;
    congratulation_date <- _adjust_to_weekday congratulation_date ;;
    Ok (upcoming_birthdays_list ++ [entry record congratulation_date])%list
  else Ok upcoming_birthdays_list.

(** [for record in self.data.values(): ...] *)
Fixpoint loop (records : list Rec.t)
    (upcoming_birthdays_list : list string) : result (list string) :=
  match records with
  | [] => Ok upcoming_birthdays_list
  | record :: rest =>
      match Rec.birthday record with
      | Some b =>
          upcoming_birthdays_list <-
            try_except_ValueError
              (try_body record b upcoming_birthdays_list)
              upcoming_birthdays_list ;;
          loop rest upcoming_birthdays_list
      | None => loop rest upcoming_birthdays_list
      end
  end.

Definition newline : string := String (ascii_of_nat 10) "".

Definition get_upcoming_birthdays (self : t) : result string :=
  upcoming_birthdays_list <- loop (values self) [] ;;
  Ok (join newline upcoming_birthdays_list).
End Query.

(** [__str__] *)
Definition str (self : t) : string :=
  join newline (map Rec.str (values self)).

End AddressBook.

(** ** The command handlers *)

Module Handlers.

(** The handlers as written, before decoration. *)
Module Body.

Definition add_contact (args : list string) : M AddressBook.t string :=
  if (List.length args <? 2)%nat then
    ret "Insufficient arguments. Usage: add <name> <phone>"
  else
    match args with
    | [name_str; phone_str] =>
        address_book <~ get ;;
        match AddressBook.find name_str address_book with
        | Some record =>
            match Rec.find_phone phone_str record with
            | Some _ =>
                ret ("Contact " ++ name_str
                       ++ " already has this phone number.")
            | None =>
                AddressBook.on_record name_str (Rec.add_phone phone_str) ;;;
                ret ("Phone number added to existing contact " ++ name_str
                       ++ ".")
            end
        | None =>
            match Rec.add_phone phone_str (Rec.init name_str) with
            | (Ok _, record) =>
                AddressBook.add_record record ;;;
                ret "Contact added."
            | (Raise e, _) => raise e
            end
        end
    | _ => raise (ValueError "too many values to unpack (expected 2)")
    end.

Definition change_contact (args : list string) : M AddressBook.t string :=
  if (List.length args <? 3)%nat then
    ret "Insufficient arguments. Usage: change <name> <old_phone> <new_phone>"
  else
    match args with
    | [name_str; old_phone_str; new_phone_str] =>
        address_book <~ get ;;
        match AddressBook.find name_str address_book with
        | None => ret ("No contact found with name " ++ name_str ++ ".")
        | Some record =>
            match Rec.find_phone old_phone_str record with
            | None =>
                ret ("No phone number " ++ old_phone_str
                       ++ " found for contact " ++ name_str ++ ".")
            | Some _ =>
                AddressBook.on_record name_str
                  (Rec.edit_phone old_phone_str new_phone_str) ;;;
                ret "Contact updated."
            end
        end
    | _ => raise (ValueError "too many values to unpack (expected 3)")
    end.

Definition birthdays (today_date : date) : M AddressBook.t string :=
  address_book <~ get ;;
  match address_book with
  | [] => ret "No contacts."
  | _ => lift (AddressBook.get_upcoming_birthdays today_date address_book)
  end.

(** [len(args) != 1] guards [args[0]]: the list has exactly one element. *)
Definition show_phone (args : list string) : M AddressBook.t string :=
  match args with
  | [name_str] =>
      address_book <~ get ;;
      match AddressBook.find name_str address_book with
      | None => ret ("No contact found with name " ++ name_str ++ ".")
      | Some record => ret (Rec.str record)
      end
  | _ => ret "Insufficient arguments. Usage: phone <name>"
  end.

Definition show_all : M AddressBook.t string :=
  address_book <~ get ;;
  match address_book with
  | [] => ret "No contacts."
  | _ => ret (AddressBook.str address_book)
  end.

Definition add_birthday (args : list string) : M AddressBook.t string :=
  if (List.length args <? 2)%nat then
    ret "Insufficient arguments. Usage: add-birthday <name> <birthday>"
  else
    match args with
    | [name_str; birthday_str] =>
        address_book <~ get ;;
        match AddressBook.find name_str address_book with
        | Some record =>
            AddressBook.on_record name_str (Rec.add_birthday birthday_str) ;;;
            ret ("Birthday added to existing contact " ++ name_str ++ ".")
        | None =>
            match Rec.add_birthday birthday_str (Rec.init name_str) with
            | (Ok _, record) =>
                AddressBook.add_record record ;;;
                ret "Contact with birthday added."
            | (Raise e, _) => raise e
            end
        end
    | _ => raise (ValueError "too many values to unpack (expected 2)")
    end.

Definition show_birthday (args : list string) : M AddressBook.t string :=
  match args with
  | [name_str] =>
      address_book <~ get ;;
      match AddressBook.find name_str address_book with
      | None => ret ("No contact found with name " ++ name_str ++ ".")
      | Some record => ret (Rec.show_birthday record)
      end
  | _ => ret "Insufficient arguments. Usage: show-birthday <name>"
  end.

End Body.

Definition show_help : string :=
  concat ""
    (map (fun line => line ++ AddressBook.newline)
       ["Available commands:";
        "- 'hello':             Greet the user.";
        "- 'help':              Display this help message.";
        "- 'add':               Add a new contact with phone or a phone to existing contact.";
        "                       Usage: add <name> <phone>";
        "- 'add-birthday':      Add a new contact with birthday or a birthday to a contact.";
        "                       Usage: add-birthday <name> <birthday>";
        "- 'change':            Update an existing phone number in existing contact.";
        "                       Usage: change <name> <old_phone> <new_phone>";
        "- 'phone':             Display a contact's phone number/numbers. Usage: phone <name>";
        "- 'show-birthday':     Display a contact's birthday. Usage: show-birthday <name>";
        "- 'birthdays':         Display upcoming birthdays within 7 days.";
        "- 'all':               Display all contacts.";
        "- 'close' or 'exit':   Exit the program."]).

(** Modelled from the spec: [bot/cli/input_error.py] is not among the
    sources.  "The handler layer is the single recovery boundary that
    converts every raised failure [...] into a uniform user-facing string";
    what a handler returns passes through unchanged.  The text produced for
    a failure is not specified: it is the parameter [error_text]. *)
Section Decorated.
Variable error_text : exn -> string.

Definition input_error {S : Type} (func : M S string) : S -> string * S :=
  fun s =>
    match func s with
    | (Ok out, s') => (out, s')
    | (Raise e, s') => (error_text e, s')
    end.

Definition add_contact (args : list string) :=
  input_error (Body.add_contact args).

Definition change_contact (args : list string) :=
  input_error (Body.change_contact args).

Definition birthdays (today_date : date) :=
  input_error (Body.birthdays today_date).

Definition show_phone (args : list string) :=
  input_error (Body.show_phone args).

Definition show_all := input_error Body.show_all.

Definition add_birthday (args : list string) :=
  input_error (Body.add_birthday args).

Definition show_birthday (args : list string) :=
  input_error (Body.show_birthday args).
End Decorated.

End Handlers.

(** ** The spec's reading of the upcoming-birthday rule

    Days are counted on the calendar ([toordinal]); the definitions here
    follow the wording of the specification, not the code. *)

Module Spec.

(** "this year's (month, day) if that date is on or after today, otherwise
    next year's (month, day)" *)
Definition next_occurrence (today : date) (m d : Z) : option date :=
  match date_new (year today) m d with
  | Ok this_year =>
      if toordinal today <=? toordinal this_year then Some this_year
      else match date_new (year today + 1) m d with
           | Ok next_year => Some next_year
           | Raise _ => None
           end
  | Raise _ => None
  end.

(** "today <= occurrence <= today + window_days (inclusive both ends)" *)
Definition in_window (today occurrence : date) (window_days : Z) : Prop :=
  toordinal today <= toordinal occurrence <= toordinal today + window_days.

Definition in_windowb (today occurrence : date) (window_days : Z) : bool :=
  (toordinal today <=? toordinal occurrence)
  && (toordinal occurrence <=? toordinal today + window_days).

(** "if the occurrence falls on Saturday, shift it forward 2 days; if
    Sunday, shift forward 1 day" *)
Definition weekend_shift (occurrence : date) : Z :=
  if weekday occurrence =? 5 then 2
  else if weekday occurrence =? 6 then 1
  else 0.

(** The congratulation date: the occurrence after the weekend shift. *)
Definition congratulation_date (occurrence : date) : date :=
  fromordinal (toordinal occurrence + weekend_shift occurrence).

(** The line a record contributes, if any: it has a birthday, the next
    occurrence can be constructed and lies in the 7-day window. *)
Definition upcoming_line (today : date) (record : Rec.t) : option string :=
  match Rec.birthday record with
  | None => None
  | Some b =>
      match next_occurrence today (month (Birthday.value b))
              (day (Birthday.value b)) with
      | None => None
      | Some occurrence =>
          if in_windowb today occurrence 7
          then Some (AddressBook.entry record
                       (congratulation_date occurrence))
          else None
      end
  end.

Fixpoint upcoming_lines (today : date) (records : list Rec.t)
  : list string :=
  match records with
  | [] => []
  | record :: rest =>
      match upcoming_line today record with
      | Some line => line :: upcoming_lines today rest
      | None => upcoming_lines today rest
      end
  end.

(** "one line per matching record, in iteration order, newline-joined" *)
Definition upcoming (today : date) (book : AddressBook.t) : string :=
  join AddressBook.newline (upcoming_lines today (AddressBook.values book)).

End Spec.

(** The expression that picks the occurrence, as it is written twice in the
    source: [address_book.py] lines 95-100 and 143-148. *)
Definition candidate (today_date : date) (m d : Z) : result date :=
  date_this_year <- date_new (year today_date) m d ;;
  if lt date_this_year today_date
  then date_new (year today_date + 1) m d
  else Ok date_this_year.

(** The claims about [edit_phone] as the specification words them, for one
    record and one pair of numbers. *)
Definition phone_values (record : Rec.t) : list string :=
  map Phone.value (Rec.phones record).

Definition after {A : Type} (method : M Rec.t A) (record : Rec.t) : Rec.t :=
  snd (method record).

(** "resulting phone list contains new and not old, and its length is
    unchanged (assuming old <> new and no prior duplicate of new)" *)
Definition edit_replaces (record : Rec.t) (old new : string) : Prop :=
  In old (phone_values record) ->
  old <> new ->
  ~ In new (phone_values record) ->
  let record' := after (Rec.edit_phone old new) record in
  In new (phone_values record')
  /\ ~ In old (phone_values record')
  /\ List.length (Rec.phones record') = List.length (Rec.phones record).

(** "add new before removing old to preserve at least one phone number if
    old == new" *)
Definition edit_same_keeps (record : Rec.t) (x : string) : Prop :=
  In x (phone_values record) ->
  In x (phone_values (after (Rec.edit_phone x x) record)).

(** The digits a phone number is made of. *)
Definition decimal_digits : list ascii :=
  list_ascii_of_string "0123456789".

Definition ten_digits (raw : string) : Prop :=
  String.length raw = 10%nat
  /\ Forall (fun c => In c decimal_digits) (list_ascii_of_string raw).

(** The phone list of the contact stored under [name]. *)
Definition phones_of (name : string) (book : AddressBook.t)
  : option (list string) :=
  option_map phone_values (AddressBook.find name book).

(** A record in a given state. *)
Definition contact (name : string) (numbers : list string)
    (born : option date) : Rec.t :=
  Rec.mk (Name.new name) (map Phone.mk numbers) (option_map Birthday.mk born).

(** A book holding the single contact John with the given numbers. *)
Definition john (numbers : list string) : AddressBook.t :=
  [("John", contact "John" numbers None)].

(** Scenario E as the specification words it, for John with the one number
    [old]: the first change turns the list into [[new]], the repeated
    change yields the two-element list [[new; new]].  The numbers are
    parameters: the scenario writes nine digits, and a number John can have
    has ten. *)
Definition scenario_E (error_text : exn -> string) (old new : string)
  : Prop :=
  let change := Handlers.change_contact error_text ["John"; old; new] in
  let book1 := snd (change (john [old])) in
  let book2 := snd (change book1) in
  phones_of "John" book1 = Some [new]
  /\ phones_of "John" book2 = Some [new; new].

(** ** Printing and the command loop *)

Module Utils.

(** [s * n]: no copy at all when [n] is not positive. *)
Definition times (s : string) (n : Z) : string :=
  concat "" (repeat s (Z.to_nat n)).

(** The text [print_with_newlines] hands to [print]. *)
Definition print_with_newlines (content : string)
    (lines_before lines_after : Z) : string :=
  times AddressBook.newline lines_before ++ content
    ++ times AddressBook.newline lines_after.

End Utils.

(** [main.py].  The terminal is the text written so far; the keyboard is the
    list of lines still to come, each with the date of the day it is typed
    on.  [parse_input] ([bot/cli/parse_input.py]) and the pickled file of
    [data_manager.py] are not among the sources: the parser is a parameter,
    the file is the book it holds, if any. *)
Module Main.

Inductive outcome : Type :=
| Exited (stdout : string) (saved : AddressBook.t)
| Crashed (e : exn) (stdout : string) (address_book : AddressBook.t)
| Reading (stdout : string) (address_book : AddressBook.t).

(** [print(text)] *)
Definition print (text : string) (stdout : string) : string :=
  stdout ++ text ++ AddressBook.newline.

Definition prompt : string := "Enter a command: ".

(** [load_data]: a fresh book when there is no file. *)
Definition load_data (file : option AddressBook.t) : AddressBook.t :=
  match file with
  | Some address_book => address_book
  | None => []
  end.

Section Session.
Variable parse_input : string -> list string.
Variable error_text : exn -> string.

(** The [if]/[elif] chain after the exit test: the text to print and the
    book afterwards. *)
Definition dispatch (today_date : date) (command : string)
    (args : list string) (address_book : AddressBook.t)
  : string * AddressBook.t :=
  if (command =? "help")%string then (Handlers.show_help, address_book)
  else if (command =? "hello")%string then
    ("How can I help you?", address_book)
  else if (command =? "add")%string then
    Handlers.add_contact error_text args address_book
  else if (command =? "change")%string then
    Handlers.change_contact error_text args address_book
  else if (command =? "phone")%string then
    Handlers.show_phone error_text args address_book
  else if (command =? "all")%string then
    Handlers.show_all error_text address_book
  else if (command =? "add-birthday")%string then
    Handlers.add_birthday error_text args address_book
  else if (command =? "show-birthday")%string then
    Handlers.show_birthday error_text args address_book
  else if (command =? "birthdays")%string then
    Handlers.birthdays error_text today_date address_book
  else ("Invalid command.", address_book).

(** [while True: ...] *)
Fixpoint loop (keyboard : list (date * string))
    (address_book : AddressBook.t) (stdout : string) : outcome :=
  match keyboard with
  | [] => Reading (stdout ++ prompt) address_book
  | (today_date, user_input) :: rest =>
      let stdout := stdout ++ prompt in
      if (user_input =? "")%string then loop rest address_book stdout
      else
        match parse_input user_input with
        | [] =>
            Crashed
              (ValueError
                 "not enough values to unpack (expected at least 1, got 0)")
              stdout address_book
        | command :: args =>
            if ((command =? "close") || (command =? "exit"))%string then
              Exited
                (print (Utils.print_with_newlines "Good bye!" 1 1) stdout)
                address_book
            else
              let (text, address_book) :=
                dispatch today_date command args address_book in
              loop rest address_book
                (print (Utils.print_with_newlines text 1 1) stdout)
        end
  end.

Definition main (file : option AddressBook.t)
    (keyboard : list (date * string)) : outcome :=
  let address_book := load_data file in
  let stdout :=
    print (Utils.print_with_newlines "Welcome to the assistant bot!" 1 1)
      "" in
  let stdout :=
    print
      (Utils.print_with_newlines
         "Type 'help' to see a list of available commands." 0 1)
      stdout in
  loop keyboard address_book stdout.

End Session.

End Main.

(** ** Well-formed books

    What the code relies on for [data]: a key occurs once, and a record is
    stored under its own name. *)

Definition keys (book : AddressBook.t) : list string := map fst book.

Definition named (kr : string * Rec.t) : Prop :=
  Name.value (Rec.name (snd kr)) = fst kr.

Definition well_formed (book : AddressBook.t) : Prop :=
  NoDup (keys book) /\ Forall named book.

(** The book after a method of [AddressBook] or a handler has run. *)
Definition book_after {A : Type} (method : M AddressBook.t A)
    (book : AddressBook.t) : AddressBook.t :=
  snd (method book).

(** The entries of [book] stored under another key than [name]. *)
Definition without (name : string) (book : AddressBook.t) : AddressBook.t :=
  filter (fun kr => negb (fst kr =? name)%string) book.

(** The book a session ends with: the one saved on exit, otherwise the one
    in memory. *)
Definition final_book (o : Main.outcome) : AddressBook.t :=
  match o with
  | Main.Exited _ book | Main.Crashed _ _ book | Main.Reading _ book => book
  end.

(** The commands whose handlers write to the book. *)
Definition writes (command : string) : bool :=
  ((command =? "add") || (command =? "change")
   || (command =? "add-birthday"))%string.


Module CalendarFacts.
Import Calendar.

Lemma is_leap_spec y :
  is_leap y = true <-> y mod 4 = 0 /\ (y mod 100 <> 0 \/ y mod 400 = 0).
Proof.
  unfold is_leap.
  rewrite andb_true_iff, orb_true_iff, negb_true_iff, !Z.eqb_eq, Z.eqb_neq.
  tauto.
Qed.

Lemma days_before_year_succ y :
  days_before_year (y + 1)
  = days_before_year y + (if is_leap y then 366 else 365).
Proof.
  unfold days_before_year.
  destruct (is_leap y) eqn:L.
  - apply is_leap_spec in L. cbv zeta. replace (y + 1 - 1) with y by lia.
    Z.div_mod_to_equations. lia.
  - assert (~ (y mod 4 = 0 /\ (y mod 100 <> 0 \/ y mod 400 = 0))) as N.
    { rewrite <- is_leap_spec, L. discriminate. }
    cbv zeta. replace (y + 1 - 1) with y by lia.
    Z.div_mod_to_equations. lia.
Qed.

Lemma days_before_year_mono y1 y2 :
  y1 <= y2 -> days_before_year y1 + 365 * (y2 - y1) <= days_before_year y2.
Proof.
  intros H. unfold days_before_year. cbv zeta.
  Z.div_mod_to_equations. lia.
Qed.

Lemma month_cases m :
  1 <= m <= 12 ->
  m = 1 \/ m = 2 \/ m = 3 \/ m = 4 \/ m = 5 \/ m = 6 \/ m = 7 \/ m = 8
  \/ m = 9 \/ m = 10 \/ m = 11 \/ m = 12.
Proof. lia. Qed.

Ltac each_month m H :=
  let C := fresh "C" in
  pose proof (month_cases m H) as C;
  repeat (destruct C as [C | C]; [subst m | ]); [.. | subst m].

(** Evaluate table look-ups and tests on literals, and nothing else. *)
Ltac tables :=
  repeat match goal with
    | |- context [index ?T ?k] =>
        let v := eval vm_compute in (index T k) in
        change (index T k) with v
    | |- context [Z.eqb ?a ?b] =>
        let v := eval vm_compute in (Z.eqb a b) in
        match v with true => idtac | false => idtac end;
        change (Z.eqb a b) with v
    | |- context [Z.ltb ?a ?b] =>
        let v := eval vm_compute in (Z.ltb a b) in
        match v with true => idtac | false => idtac end;
        change (Z.ltb a b) with v
    end;
  cbn [andb orb negb]; cbv beta iota.

Lemma days_in_month_bounds y m :
  1 <= m <= 12 -> 28 <= days_in_month y m <= 31.
Proof.
  intros H. unfold days_in_month.
  each_month m H; destruct (is_leap y); tables; lia.
Qed.

Lemma days_before_month_next y m :
  1 <= m < 12 ->
  days_before_month y (m + 1) = days_before_month y m + days_in_month y m.
Proof.
  intros H. assert (1 <= m <= 12) as H' by lia.
  unfold days_before_month, days_in_month.
  each_month m H'; try lia; destruct (is_leap y); tables; lia.
Qed.

Lemma days_before_month_first y : days_before_month y 1 = 0.
Proof. reflexivity. Qed.

Lemma days_before_month_last y :
  days_before_month y 12 + days_in_month y 12
  = if is_leap y then 366 else 365.
Proof.
  unfold days_before_month, days_in_month. destruct (is_leap y); tables; lia.
Qed.

Lemma days_before_month_mono y m1 m2 :
  1 <= m1 -> m1 < m2 -> m2 <= 12 ->
  days_before_month y m1 + days_in_month y m1 <= days_before_month y m2.
Proof.
  intros H1 H12 H2.
  assert (1 <= m1 <= 12) as A by lia. assert (1 <= m2 <= 12) as B by lia.
  unfold days_before_month, days_in_month.
  each_month m1 A; each_month m2 B; try lia; destruct (is_leap y); tables; lia.
Qed.

Lemma days_before_month_range y m :
  1 <= m <= 12 ->
  0 <= days_before_month y m
  /\ days_before_month y m + days_in_month y m
     <= (if is_leap y then 366 else 365).
Proof.
  intros H. unfold days_before_month, days_in_month.
  each_month m H; destruct (is_leap y); tables; lia.
Qed.

Lemma toordinal_in_year t :
  valid t ->
  days_before_year (year t) < toordinal t <= days_before_year (year t + 1).
Proof.
  intros (Hy & Hm & Hd). unfold toordinal, ymd2ord.
  rewrite days_before_year_succ.
  pose proof (days_before_month_range (year t) (month t) Hm). lia.
Qed.

Lemma toordinal_range t : valid t -> 1 <= toordinal t <= MAXORDINAL.
Proof.
  intros V. pose proof (toordinal_in_year t V) as I.
  destruct V as (Hy & _). unfold MINYEAR, MAXYEAR in Hy.
  pose proof (days_before_year_mono 1 (year t) ltac:(lia)) as L.
  pose proof (days_before_year_mono (year t + 1) 10000 ltac:(lia)) as U.
  change (days_before_year 1) with 0 in L.
  change (days_before_year 10000) with MAXORDINAL in U. lia.
Qed.

(** Chronological order is the order of the (year, month, day) triples. *)
Lemma cmp_toordinal a b :
  valid a -> valid b -> cmp a b = (toordinal a ?= toordinal b).
Proof.
  intros Va Vb.
  pose proof (toordinal_in_year a Va) as Ia.
  pose proof (toordinal_in_year b Vb) as Ib.
  destruct Va as (_ & Hma & Hda), Vb as (_ & Hmb & Hdb).
  unfold cmp. symmetry.
  destruct (Z.compare_spec (year a) (year b)) as [Ey | Ly | Ly].
  - destruct (Z.compare_spec (month a) (month b)) as [Em | Lm | Lm].
    + unfold toordinal, ymd2ord. rewrite Ey, Em.
      destruct (Z.compare_spec (day a) (day b)); 
        [apply Z.compare_eq_iff | apply Z.compare_lt_iff
        | apply Z.compare_gt_iff]; lia.
    + apply Z.compare_lt_iff. unfold toordinal, ymd2ord. rewrite Ey.
      pose proof (days_before_month_mono (year b) (month a) (month b)).
      rewrite Ey in Hda. lia.
    + apply Z.compare_gt_iff. unfold toordinal, ymd2ord. rewrite Ey.
      pose proof (days_before_month_mono (year b) (month b) (month a)).
      lia.
  - apply Z.compare_lt_iff.
    pose proof (days_before_year_mono (year a + 1) (year b)). lia.
  - apply Z.compare_gt_iff.
    pose proof (days_before_year_mono (year b + 1) (year a)). lia.
Qed.

Lemma lt_toordinal a b :
  valid a -> valid b -> lt a b = (toordinal a <? toordinal b).
Proof.
  intros Va Vb. unfold lt, Z.ltb. now rewrite cmp_toordinal.
Qed.

Lemma le_toordinal a b :
  valid a -> valid b -> le a b = (toordinal a <=? toordinal b).
Proof.
  intros Va Vb. unfold le, Z.leb. now rewrite cmp_toordinal.
Qed.

Lemma toordinal_inj a b :
  valid a -> valid b -> toordinal a = toordinal b -> a = b.
Proof.
  intros Va Vb E. pose proof (cmp_toordinal a b Va Vb) as C.
  rewrite E, Z.compare_refl in C. unfold cmp in C.
  destruct a as [ya ma da], b as [yb mb db]; simpl in *.
  destruct (Z.compare_spec ya yb); try discriminate.
  destruct (Z.compare_spec ma mb); try discriminate.
  apply Z.compare_eq in C. congruence.
Qed.

Lemma toordinal_dec31 y :
  toordinal (mkdate y 12 31) = days_before_year (y + 1).
Proof.
  unfold toordinal, ymd2ord. simpl year; simpl month; simpl day.
  rewrite days_before_year_succ.
  pose proof (days_before_month_last y) as L.
  change (days_in_month y 12) with 31 in L. lia.
Qed.

(** The year reached after [q400] full 400-year cycles, [q100] centuries,
    [q4] 4-year cycles and [q1] single years. *)
Lemma year_decomposition q400 q100 q4 q1 :
  0 <= q400 -> 0 <= q100 <= 3 -> 0 <= q4 <= 24 -> 0 <= q1 <= 3 ->
  let y := q400 * 400 + 1 + q100 * 100 + q4 * 4 + q1 in
  days_before_year y = 146097 * q400 + 36524 * q100 + 1461 * q4 + 365 * q1
  /\ is_leap y = (q1 =? 3) && (negb (q4 =? 24) || (q100 =? 3)).
Proof.
  intros H400 H100 H4 H1 y. split.
  - unfold days_before_year. cbv zeta. subst y.
    Z.div_mod_to_equations. lia.
  - destruct (is_leap y) eqn:L.
    + apply is_leap_spec in L. symmetry.
      rewrite andb_true_iff, orb_true_iff, negb_true_iff, !Z.eqb_eq,
        Z.eqb_neq.
      subst y. Z.div_mod_to_equations. lia.
    + symmetry. apply not_true_is_false. intros T.
      rewrite andb_true_iff, orb_true_iff, negb_true_iff, !Z.eqb_eq,
        Z.eqb_neq in T.
      assert (is_leap y = true) as L'; [ | congruence].
      apply is_leap_spec. subst y. Z.div_mod_to_equations. lia.
Qed.

Lemma year_below_max y n :
  days_before_year y < n -> n <= MAXORDINAL -> y <= MAXYEAR.
Proof.
  intros L U. unfold MAXYEAR.
  destruct (Z_le_gt_dec y 9999) as [ | G]; [assumption | exfalso].
  pose proof (days_before_year_mono 10000 y ltac:(lia)) as M.
  change (days_before_year 10000) with MAXORDINAL in M. lia.
Qed.

Lemma fromordinal_spec n :
  1 <= n <= MAXORDINAL ->
  valid (fromordinal n) /\ toordinal (fromordinal n) = n.
Proof.
  intros [Hlo Hhi]. unfold fromordinal, ord2ymd. cbv zeta.
  rewrite Z.shiftr_div_pow2 by lia. change (2 ^ 5) with 32.
  unfold DI400Y, DI100Y, DI4Y.
  set (n0 := n - 1).
  set (q400 := n0 / 146097). set (r400 := n0 mod 146097).
  set (q100 := r400 / 36524). set (r100 := r400 mod 36524).
  set (q4 := r100 / 1461). set (r4 := r100 mod 1461).
  set (q1 := r4 / 365). set (r1 := r4 mod 365).
  assert (n0 = 146097 * q400 + r400 /\ 0 <= r400 < 146097) as [E400 B400].
  { subst q400 r400. split; [apply Z.div_mod | apply Z.mod_pos_bound]; lia. }
  assert (r400 = 36524 * q100 + r100 /\ 0 <= r100 < 36524) as [E100 B100].
  { subst q100 r100. split; [apply Z.div_mod | apply Z.mod_pos_bound]; lia. }
  assert (r100 = 1461 * q4 + r4 /\ 0 <= r4 < 1461) as [E4 B4].
  { subst q4 r4. split; [apply Z.div_mod | apply Z.mod_pos_bound]; lia. }
  assert (r4 = 365 * q1 + r1 /\ 0 <= r1 < 365) as [E1 B1].
  { subst q1 r1. split; [apply Z.div_mod | apply Z.mod_pos_bound]; lia. }
  assert (n0 = n - 1) as En0 by reflexivity.
  clearbody n0 q400 r400 q100 r100 q4 r4 q1 r1.
  assert (0 <= q400 /\ 0 <= q100 <= 4 /\ 0 <= q4 <= 24 /\ 0 <= q1 <= 4)
    as (P400 & P100 & P4 & P1) by lia.
  destruct ((q1 =? 4) || (q100 =? 4)) eqn:Last.
  - (* the last day of a leap year or of a 400-year cycle *)
    apply orb_true_iff in Last. rewrite !Z.eqb_eq in Last.
    assert (toordinal
              (mkdate (q400 * 400 + 1 + q100 * 100 + q4 * 4 + q1 - 1) 12 31)
            = n) as T.
    { rewrite toordinal_dec31.
      destruct (Z.eq_dec q100 4) as [C | C].
      - replace (q400 * 400 + 1 + q100 * 100 + q4 * 4 + q1 - 1 + 1)
          with ((q400 + 1) * 400 + 1 + 0 * 100 + 0 * 4 + 0) by lia.
        destruct (year_decomposition (q400 + 1) 0 0 0) as [D _]; lia.
      - replace (q400 * 400 + 1 + q100 * 100 + q4 * 4 + q1 - 1 + 1)
          with (q400 * 400 + 1 + q100 * 100 + (q4 + 1) * 4 + 0) by lia.
        destruct (year_decomposition q400 q100 (q4 + 1) 0) as [D _]; lia. }
    split; [ | exact T].
    rewrite toordinal_dec31 in T.
    repeat split; simpl year; simpl month; simpl day; try lia.
    + unfold MINYEAR. lia.
    + apply year_below_max with (n := n); [ | lia].
      rewrite <- T.
      pose proof (days_before_year_succ
                    (q400 * 400 + 1 + q100 * 100 + q4 * 4 + q1 - 1)).
      destruct (is_leap _); lia.
    + unfold days_in_month. tables. lia.
  - apply orb_false_iff in Last. rewrite !Z.eqb_neq in Last.
    destruct (year_decomposition q400 q100 q4 q1) as [D L]; try lia.
    cbv zeta in D, L. rewrite <- L.
    set (y := q400 * 400 + 1 + q100 * 100 + q4 * 4 + q1) in *.
    assert (r1 + 50 = 32 * ((r1 + 50) / 32) + (r1 + 50) mod 32
            /\ 0 <= (r1 + 50) mod 32 < 32) as [Em Bm].
    { split; [apply Z.div_mod | apply Z.mod_pos_bound]; lia. }
    set (m := (r1 + 50) / 32) in *. set (s := (r1 + 50) mod 32) in *.
    clearbody m s.
    assert (1 <= m <= 12) as Hm by lia.
    assert (MINYEAR <= y) as Ymin by (unfold MINYEAR; subst y; lia).
    assert (forall mm dd,
               1 <= mm <= 12 ->
               1 <= dd <= days_in_month y mm ->
               days_before_month y mm + dd = r1 + 1 ->
               valid (mkdate y mm dd) /\ toordinal (mkdate y mm dd) = n)
      as Close.
    { intros mm dd Hmm Hdd Hsum.
      assert (toordinal (mkdate y mm dd) = n) as T.
      { unfold toordinal, ymd2ord. simpl year; simpl month; simpl day. lia. }
      split; [ | exact T].
      repeat split; simpl year; simpl month; simpl day; try lia.
      apply year_below_max with (n := n); [ | lia].
      rewrite <- T. unfold toordinal, ymd2ord.
      simpl year; simpl month; simpl day.
      pose proof (days_before_month_range y mm Hmm). lia. }
    clear D En0 E400 E100 E4 E1.
    each_month m Hm; destruct (is_leap y) eqn:Leap; tables;
      match goal with
      | |- context [if ?a <? ?b then _ else _] =>
          destruct (Z.ltb_spec a b)
      end;
      try lia;
      apply Close; unfold days_in_month, days_before_month;
      rewrite ?Leap; tables; lia.
Qed.
End CalendarFacts.

Module QueryFacts.
Import CalendarFacts AddressBook.

Lemma date_new_ok y m d t :
  date_new y m d = Ok t -> t = mkdate y m d /\ valid t.
Proof.
  unfold date_new.
  destruct ((MINYEAR <=? y) && (y <=? MAXYEAR)) eqn:Y; simpl; [ | discriminate].
  destruct ((1 <=? m) && (m <=? 12)) eqn:Mo; simpl; [ | discriminate].
  destruct ((1 <=? d) && (d <=? days_in_month y m)) eqn:D; simpl;
    [ | discriminate].
  intros [= <-]. split; [reflexivity | ].
  apply andb_true_iff in Y, Mo, D. rewrite !Z.leb_le in Y, Mo, D.
  unfold valid; simpl. lia.
Qed.

Lemma date_new_raise y m d e :
  date_new y m d = Raise e -> exists msg, e = ValueError msg.
Proof.
  unfold date_new.
  repeat match goal with
    | |- context [if negb ?c then _ else _] => destruct c; simpl
    end;
    intros [= <-]; eauto.
Qed.

Lemma add_days_ok t n t' :
  add_days t n = Ok t' -> valid t' /\ toordinal t' = toordinal t + n.
Proof.
  unfold add_days.
  destruct ((0 <? toordinal t + n) && (toordinal t + n <=? MAXORDINAL))
    eqn:R; [ | discriminate].
  intros [= <-]. apply andb_true_iff in R.
  rewrite Z.ltb_lt, Z.leb_le in R. apply fromordinal_spec. lia.
Qed.

Lemma add_days_fits t n :
  1 <= toordinal t + n <= MAXORDINAL ->
  add_days t n = Ok (fromordinal (toordinal t + n)).
Proof.
  intros R. unfold add_days.
  replace ((0 <? toordinal t + n) && (toordinal t + n <=? MAXORDINAL))
    with true; [reflexivity | ].
  symmetry. apply andb_true_iff. rewrite Z.ltb_lt, Z.leb_le. lia.
Qed.

Lemma fromordinal_toordinal t : valid t -> fromordinal (toordinal t) = t.
Proof.
  intros V. pose proof (toordinal_range t V) as R.
  destruct (fromordinal_spec _ R) as [V' E].
  now apply toordinal_inj.
Qed.

Section Window.
Variable today : date.
Hypothesis today_valid : valid today.

Lemma next_occurrence_candidate m d occ :
  Spec.next_occurrence today m d = Some occ <-> candidate today m d = Ok occ.
Proof.
  unfold Spec.next_occurrence, candidate, bind.
  destruct (date_new (year today) m d) as [t | e] eqn:T; [ | easy].
  apply date_new_ok in T as [_ Vt].
  rewrite (lt_toordinal t today Vt today_valid), Z.ltb_antisym.
  destruct (toordinal today <=? toordinal t); simpl.
  - split; intros [= <-]; reflexivity.
  - destruct (date_new (year today + 1) m d); split; congruence.
Qed.

Lemma candidate_raise m d e :
  candidate today m d = Raise e ->
  Spec.next_occurrence today m d = None /\ exists msg, e = ValueError msg.
Proof.
  intros C. split.
  - destruct (Spec.next_occurrence today m d) as [occ | ] eqn:N;
      [ | reflexivity].
    apply next_occurrence_candidate in N. congruence.
  - unfold candidate, bind in C.
    destruct (date_new (year today) m d) as [t | e'] eqn:T.
    + destruct (lt t today); [ | discriminate].
      now apply date_new_raise in C.
    + injection C as <-. now apply date_new_raise in T.
Qed.

Lemma candidate_not_past m d occ :
  candidate today m d = Ok occ ->
  valid occ /\ toordinal today <= toordinal occ.
Proof.
  unfold candidate, bind.
  destruct (date_new (year today) m d) as [t | e] eqn:T; [ | discriminate].
  apply date_new_ok in T as [Et Vt].
  rewrite (lt_toordinal t today Vt today_valid).
  destruct (Z.ltb_spec (toordinal t) (toordinal today)) as [Past | Now].
  - intros N. apply date_new_ok in N as [En Vn]. split; [exact Vn | ].
    pose proof (toordinal_in_year today today_valid).
    pose proof (toordinal_in_year occ Vn) as I.
    replace (year occ) with (year today + 1) in I by now rewrite En.
    lia.
  - intros [= <-]. split; [exact Vt | lia].
Qed.

Lemma within_days_eq target_date days :
  _is_date_within_days today target_date days
  = (occ <- candidate today (month target_date) (day target_date) ;;
     if le today occ
     then limit <- add_days today days ;; Ok (le occ limit)
     else Ok false).
Proof.
  unfold _is_date_within_days, candidate, bind.
  destruct (date_new (year today) (month target_date) (day target_date));
    reflexivity.
Qed.

Lemma within_days_ok target_date days occ :
  1 <= toordinal today + days <= MAXORDINAL ->
  candidate today (month target_date) (day target_date) = Ok occ ->
  _is_date_within_days today target_date days
  = Ok (Spec.in_windowb today occ days).
Proof.
  intros Fits C. rewrite within_days_eq, C. simpl.
  destruct (candidate_not_past _ _ _ C) as [Vo Le].
  rewrite (le_toordinal today occ today_valid Vo).
  replace (toordinal today <=? toordinal occ) with true
    by (symmetry; now apply Z.leb_le).
  rewrite (add_days_fits today days Fits). simpl.
  destruct (fromordinal_spec _ Fits) as [Vl El].
  rewrite (le_toordinal occ _ Vo Vl), El.
  unfold Spec.in_windowb.
  replace (toordinal today <=? toordinal occ) with true
    by (symmetry; now apply Z.leb_le).
  reflexivity.
Qed.

Lemma within_days_raise target_date days e :
  candidate today (month target_date) (day target_date) = Raise e ->
  _is_date_within_days today target_date days = Raise e.
Proof. intros C. now rewrite within_days_eq, C. Qed.


(** The last representable day is a Friday, so the shift cannot leave the
    calendar. *)
Lemma weekend_shift_fits occ :
  valid occ ->
  1 <= toordinal occ + Spec.weekend_shift occ <= MAXORDINAL.
Proof.
  intros V. pose proof (toordinal_range occ V) as R.
  unfold Spec.weekend_shift, weekday, MAXORDINAL in *.
  destruct (Z.eqb_spec ((toordinal occ + 6) mod 7) 5) as [Sat | _];
    [ | destruct (Z.eqb_spec ((toordinal occ + 6) mod 7) 6) as [Sun | _]];
    Z.div_mod_to_equations; lia.
Qed.

Lemma congratulation_date_spec occ :
  valid occ ->
  valid (Spec.congratulation_date occ)
  /\ toordinal (Spec.congratulation_date occ)
     = toordinal occ + Spec.weekend_shift occ.
Proof.
  intros V. apply fromordinal_spec. now apply weekend_shift_fits.
Qed.

Lemma adjust_to_weekday_spec occ :
  valid occ -> _adjust_to_weekday occ = Ok (Spec.congratulation_date occ).
Proof.
  intros V. pose proof (weekend_shift_fits occ V) as F.
  unfold _adjust_to_weekday, Spec.congratulation_date, Spec.weekend_shift
    in *.
  destruct (weekday occ =? 5); [now apply add_days_fits | ].
  destruct (weekday occ =? 6); [now apply add_days_fits | ].
  now rewrite Z.add_0_r, fromordinal_toordinal.
Qed.

Lemma weekend_moves_to_monday occ :
  valid occ -> weekday occ = 5 \/ weekday occ = 6 ->
  weekday (Spec.congratulation_date occ) = 0.
Proof.
  intros V W. destruct (congratulation_date_spec occ V) as [_ E].
  unfold weekday in *. rewrite E. unfold Spec.weekend_shift, weekday.
  destruct W as [W | W]; rewrite W; simpl (_ =? _);
    cbv beta iota; Z.div_mod_to_equations; lia.
Qed.

Hypothesis window_fits : toordinal today + 7 <= MAXORDINAL.

Lemma window_limit : 1 <= toordinal today + 7 <= MAXORDINAL.
Proof. pose proof (toordinal_range today today_valid). lia. Qed.

Lemma try_body_eq record b acc :
  try_body today record b acc
  = (within <- _is_date_within_days today (Birthday.value b) 7 ;;
     if within : bool then
       occ <- candidate today (month (Birthday.value b))
                (day (Birthday.value b)) ;;
       shifted <- _adjust_to_weekday occ ;;
       Ok (acc ++ [entry record shifted])%list
     else Ok acc).
Proof.
  unfold try_body, candidate, bind.
  destruct (_is_date_within_days today (Birthday.value b) 7) as [[ | ] | ];
    try reflexivity.
  destruct (date_new (year today) (month (Birthday.value b))
              (day (Birthday.value b))); reflexivity.
Qed.

(** One turn of the loop adds the record's line, if it has one. *)
Lemma try_body_line record b acc :
  Rec.birthday record = Some b ->
  try_except_ValueError (try_body today record b acc) acc
  = Ok (acc ++ match Spec.upcoming_line today record with
               | Some line => [line]
               | None => []
               end)%list.
Proof.
  intros B. rewrite try_body_eq. unfold Spec.upcoming_line. rewrite B.
  destruct (candidate today (month (Birthday.value b))
              (day (Birthday.value b))) as [occ | e] eqn:C.
  - rewrite (within_days_ok _ 7 occ window_limit C).
    rewrite (proj2 (next_occurrence_candidate _ _ _) C).
    simpl. destruct (Spec.in_windowb today occ 7); simpl.
    + destruct (candidate_not_past _ _ _ C) as [Vo _].
      now rewrite (adjust_to_weekday_spec occ Vo).
    + now rewrite app_nil_r.
  - rewrite (within_days_raise _ _ _ C).
    destruct (candidate_raise _ _ _ C) as [N [msg ->]].
    rewrite N. simpl. now rewrite app_nil_r.
Qed.

Lemma loop_lines records acc :
  loop today records acc
  = Ok (acc ++ Spec.upcoming_lines today records)%list.
Proof.
  revert acc. induction records as [ | record rest IH]; intros acc; simpl.
  - now rewrite app_nil_r.
  - destruct (Rec.birthday record) as [b | ] eqn:B.
    + rewrite (try_body_line record b acc B). simpl. rewrite IH.
      destruct (Spec.upcoming_line today record);
        now rewrite <- app_assoc.
    + rewrite IH. unfold Spec.upcoming_line. now rewrite B.
Qed.

(** The query computes what the specification describes. *)
Lemma get_upcoming_birthdays_refines book :
  get_upcoming_birthdays today book = Ok (Spec.upcoming today book).
Proof.
  unfold get_upcoming_birthdays, Spec.upcoming.
  now rewrite loop_lines.
Qed.


Lemma upcoming_lines_In record records line :
  In record records -> Spec.upcoming_line today record = Some line ->
  In line (Spec.upcoming_lines today records).
Proof.
  intros I L. induction records as [ | r rest IH]; simpl in *; [easy | ].
  destruct I as [-> | I].
  - rewrite L. now left.
  - destruct (Spec.upcoming_line today r); [right | ]; auto.
Qed.

Lemma upcoming_lines_app l1 l2 :
  Spec.upcoming_lines today (l1 ++ l2)
  = (Spec.upcoming_lines today l1 ++ Spec.upcoming_lines today l2)%list.
Proof.
  induction l1 as [ | r rest IH]; simpl; [reflexivity | ].
  destruct (Spec.upcoming_line today r); simpl; now rewrite IH.
Qed.

Lemma upcoming_lines_none records :
  (forall record, In record records ->
                  Spec.upcoming_line today record = None) ->
  Spec.upcoming_lines today records = [].
Proof.
  intros N. induction records as [ | r rest IH]; simpl; [reflexivity | ].
  rewrite (N r) by now left. apply IH. intros; apply N; now right.
Qed.

Lemma in_windowb_spec occ days :
  Spec.in_windowb today occ days = true <-> Spec.in_window today occ days.
Proof.
  unfold Spec.in_windowb, Spec.in_window.
  rewrite andb_true_iff, !Z.leb_le. tauto.
Qed.

(** C1: a birthday passes the inclusion test of [get_upcoming_birthdays]
    exactly when its next occurrence (this year's (month, day) if on or
    after today, otherwise next year's) lies between today and today + 7,
    both ends included; and the occurrence the code picks is that next
    occurrence, never a date before today. *)
Theorem inclusion_test_is_next_occurrence_in_window (target_date : date) :
  (_is_date_within_days today target_date 7 = Ok true
   <-> exists occ,
         Spec.next_occurrence today (month target_date) (day target_date)
         = Some occ
         /\ Spec.in_window today occ 7)
  /\ (forall occ,
         candidate today (month target_date) (day target_date) = Ok occ ->
         Spec.next_occurrence today (month target_date) (day target_date)
         = Some occ
         /\ toordinal today <= toordinal occ).
Proof.
  split.
  - destruct (candidate today (month target_date) (day target_date))
      as [occ | e] eqn:C.
    + rewrite (within_days_ok _ 7 occ window_limit C).
      apply next_occurrence_candidate in C. rewrite C. split.
      * intros [= W]. exists occ. split; [reflexivity | ].
        now apply in_windowb_spec.
      * intros (occ' & [= <-] & W). apply in_windowb_spec in W.
        now rewrite W.
    + rewrite (within_days_raise _ _ _ C).
      apply candidate_raise in C as [N _]. rewrite N. split.
      * discriminate.
      * intros (occ & N' & _). discriminate.
  - intros occ C. split.
    + now apply next_occurrence_candidate.
    + now apply candidate_not_past in C.
Qed.

(** C2: the weekend shift only changes the rendered date.  A record whose
    next occurrence is in the 7-day window and falls on a Saturday or a
    Sunday passes the inclusion test, which looks at the occurrence
    before the shift, and its line shows the Monday after (2 days later
    for a Saturday, 1 day later for a Sunday), whether or not that Monday
    is still inside the window. *)
Theorem weekend_shift_after_inclusion_test
    (record : Rec.t) (b : Birthday.t) (occ : date) :
  Rec.birthday record = Some b ->
  Spec.next_occurrence today (month (Birthday.value b))
    (day (Birthday.value b)) = Some occ ->
  Spec.in_window today occ 7 ->
  weekday occ = 5 \/ weekday occ = 6 ->
  let shifted := Spec.congratulation_date occ in
  _is_date_within_days today (Birthday.value b) 7 = Ok true
  /\ toordinal shifted = toordinal occ + (if weekday occ =? 5 then 2 else 1)
  /\ weekday shifted = 0
  /\ (forall acc,
         try_body today record b acc
         = Ok (acc ++ [entry record shifted])%list)
  /\ (forall book,
         In record (values book) ->
         exists lines,
           loop today (values book) [] = Ok lines
           /\ In (entry record shifted) lines
           /\ get_upcoming_birthdays today book = Ok (join newline lines)).
Proof.
  intros B N W Weekend shifted.
  pose proof (proj1 (next_occurrence_candidate _ _ _) N) as C.
  destruct (candidate_not_past _ _ _ C) as [Vo _].
  pose proof (proj2 (in_windowb_spec occ 7) W) as Wb.
  assert (_is_date_within_days today (Birthday.value b) 7 = Ok true) as T.
  { now rewrite (within_days_ok _ 7 occ window_limit C), Wb. }
  assert (Spec.upcoming_line today record = Some (entry record shifted))
    as L.
  { unfold Spec.upcoming_line. now rewrite B, N, Wb. }
  split; [exact T | ]. split; [ | split; [ | split]].
  - destruct (congratulation_date_spec occ Vo) as [_ E].
    subst shifted. rewrite E. unfold Spec.weekend_shift.
    destruct Weekend as [S | S]; rewrite S; reflexivity.
  - now apply weekend_moves_to_monday.
  - intros acc. rewrite try_body_eq, T, C. simpl.
    now rewrite (adjust_to_weekday_spec occ Vo).
  - intros book I. exists (Spec.upcoming_lines today (values book)).
    split; [ | split].
    + now rewrite loop_lines.
    + now apply upcoming_lines_In with (record := record).
    + apply get_upcoming_birthdays_refines.
Qed.

Lemma values_app (l1 l2 : AddressBook.t) :
  values (l1 ++ l2)%list = (values l1 ++ values l2)%list.
Proof. apply map_app. Qed.

(** A 29 February cannot be constructed in a year that is not leap. *)
Lemma leap_day_fails :
  is_leap (year today) = false ->
  exists msg, candidate today 2 29 = Raise (ValueError msg).
Proof.
  intros L. unfold candidate, date_new.
  destruct today_valid as (Y & _). unfold MINYEAR, MAXYEAR in *.
  replace ((1 <=? year today) && (year today <=? 9999)) with true
    by (symmetry; apply andb_true_iff; rewrite !Z.leb_le; lia).
  unfold days_in_month. rewrite L. simpl. eauto.
Qed.

(** C3: a record whose occurrence cannot be constructed (a [ValueError]
    of the [date] constructor, as for a 29 February birthday when this
    year is not a leap year) is left out and nothing else changes: the
    exception is caught inside the loop, the query returns normally, and
    what it returns is the newline-joined lines of the other records, the
    same as without that record; every other record that has a line is
    in it. *)
Theorem date_construction_failure_skips_record
    (before after : AddressBook.t) (key : string) (record : Rec.t)
    (b : Birthday.t) :
  Rec.birthday record = Some b ->
  ((exists e, candidate today (month (Birthday.value b))
                (day (Birthday.value b)) = Raise e)
   \/ (month (Birthday.value b) = 2 /\ day (Birthday.value b) = 29
       /\ is_leap (year today) = false)) ->
  (forall acc, exists msg,
      try_body today record b acc = Raise (ValueError msg))
  /\ get_upcoming_birthdays today (before ++ (key, record) :: after)%list
     = Ok (Spec.upcoming today (before ++ after)%list)
  /\ get_upcoming_birthdays today (before ++ after)%list
     = Ok (Spec.upcoming today (before ++ after)%list)
  /\ (forall other line,
        In other (values (before ++ after)%list) ->
        Spec.upcoming_line today other = Some line ->
        In line (Spec.upcoming_lines today (values (before ++ after)%list))).
Proof.
  intros B Fails.
  assert (exists msg,
             candidate today (month (Birthday.value b))
               (day (Birthday.value b)) = Raise (ValueError msg))
    as [msg C].
  { destruct Fails as [[e C] | (Em & Ed & L)].
    - destruct (candidate_raise _ _ _ C) as [_ [msg ->]]. eauto.
    - rewrite Em, Ed. now apply leap_day_fails. }
  split; [ | split; [ | split]].
  - intros acc. exists msg.
    now rewrite try_body_eq, (within_days_raise _ _ _ C).
  - rewrite get_upcoming_birthdays_refines. f_equal.
    unfold Spec.upcoming. f_equal.
    rewrite !values_app, !upcoming_lines_app. f_equal. simpl.
    unfold Spec.upcoming_line. rewrite B.
    now rewrite (proj1 (candidate_raise _ _ _ C)).
  - apply get_upcoming_birthdays_refines.
  - intros other line I L. now apply upcoming_lines_In with (record := other).
Qed.

Lemma upcoming_line_prefix record line :
  Spec.upcoming_line today record = Some line ->
  exists rest, line = "Contact name: " ++ rest.
Proof.
  unfold Spec.upcoming_line.
  destruct (Rec.birthday record) as [b | ]; [ | discriminate].
  destruct (Spec.next_occurrence _ _ _) as [occ | ]; [ | discriminate].
  destruct (Spec.in_windowb today occ 7); [ | discriminate].
  intros [= <-]. unfold entry. eauto.
Qed.

Lemma join_lines_not_no_contacts lines :
  (forall line, In line lines ->
                exists rest, line = "Contact name: " ++ rest) ->
  join newline lines <> "No contacts.".
Proof.
  intros P. destruct lines as [ | line rest].
  - discriminate.
  - destruct (P line) as [tail ->]; [now left | ].
    simpl. destruct rest; discriminate.
Qed.

Lemma upcoming_lines_prefix records line :
  In line (Spec.upcoming_lines today records) ->
  exists rest, line = "Contact name: " ++ rest.
Proof.
  induction records as [ | r rs IH]; simpl; [easy | ].
  destruct (Spec.upcoming_line today r) as [l | ] eqn:L; [ | exact IH].
  intros [<- | I]; [now apply upcoming_line_prefix in L | auto].
Qed.

Lemma upcoming_not_no_contacts book :
  Spec.upcoming today book <> "No contacts.".
Proof.
  apply join_lines_not_no_contacts. intros line.
  apply upcoming_lines_prefix.
Qed.

(** C9: when no record's next occurrence lies in the window the query
    returns the empty string, and so does the [birthdays] handler for a
    book that has records; the handler answers "No contacts." exactly
    when the book itself is empty. *)
Theorem no_match_is_empty_string_not_no_contacts
    (error_text : exn -> string) (book : AddressBook.t) :
  ((forall record b occ,
       In record (values book) ->
       Rec.birthday record = Some b ->
       Spec.next_occurrence today (month (Birthday.value b))
         (day (Birthday.value b)) = Some occ ->
       ~ Spec.in_window today occ 7) ->
   get_upcoming_birthdays today book = Ok ""
   /\ (book <> [] ->
       Handlers.birthdays error_text today book = ("", book)))
  /\ (fst (Handlers.birthdays error_text today book) = "No contacts."
      <-> book = []).
Proof.
  assert (book <> [] ->
          Handlers.birthdays error_text today book
          = (Spec.upcoming today book, book)) as Run.
  { intros NE. unfold Handlers.birthdays, Handlers.input_error,
      Handlers.Body.birthdays, mbind, get, lift.
    destruct book as [ | kr rest]; [congruence | ].
    now rewrite get_upcoming_birthdays_refines. }
  split.
  - intros NoMatch.
    assert (Spec.upcoming today book = "") as E.
    { unfold Spec.upcoming. rewrite upcoming_lines_none; [reflexivity | ].
      intros record I. unfold Spec.upcoming_line.
      destruct (Rec.birthday record) as [b | ] eqn:B; [ | reflexivity].
      destruct (Spec.next_occurrence _ _ _) as [occ | ] eqn:N;
        [ | reflexivity].
      destruct (Spec.in_windowb today occ 7) eqn:W; [ | reflexivity].
      apply in_windowb_spec in W. now destruct (NoMatch record b occ). }
    split.
    + now rewrite get_upcoming_birthdays_refines, E.
    + intros NE. now rewrite (Run NE), E.
  - split.
    + intros Out. destruct book as [ | kr rest]; [reflexivity | ].
      rewrite Run in Out by discriminate. simpl in Out.
      now apply upcoming_not_no_contacts in Out.
    + intros ->. reflexivity.
Qed.

End Window.
End QueryFacts.

Module FieldFacts.

Lemma is_digit_spec c : Phone.is_digit c = true <-> In c decimal_digits.
Proof.
  destruct c as [[ | ] [ | ] [ | ] [ | ] [ | ] [ | ] [ | ] [ | ]];
    vm_compute; split; intros H; try discriminate H; try tauto;
    repeat (destruct H as [H | H]; [discriminate H | ]); destruct H.
Qed.

Lemma all_digits_spec s :
  Phone.all_digits s = true
  <-> Forall (fun c => In c decimal_digits) (list_ascii_of_string s).
Proof.
  induction s as [ | c s IH]; simpl.
  - split; [constructor | reflexivity].
  - rewrite andb_true_iff, is_digit_spec, IH. split.
    + intros [Hc Hs]. now constructor.
    + intros F. inversion F; subst. now split.
Qed.

Lemma phone_new_ok_iff raw :
  Phone.new raw = Ok (Phone.mk raw) <-> ten_digits raw.
Proof.
  unfold Phone.new, ten_digits.
  rewrite <- all_digits_spec, <- Nat.eqb_eq, <- andb_true_iff.
  destruct ((String.length raw =? 10)%nat && Phone.all_digits raw)%bool;
    split; intros H; try reflexivity; discriminate H.
Qed.

Lemma phone_new_cases raw :
  (ten_digits raw /\ Phone.new raw = Ok (Phone.mk raw))
  \/ (~ ten_digits raw
      /\ exists msg, Phone.new raw = Raise (ValidationError msg)).
Proof.
  pose proof (phone_new_ok_iff raw) as I. unfold Phone.new in *.
  destruct ((String.length raw =? 10)%nat && Phone.all_digits raw)%bool.
  - left. split; [now apply I | reflexivity].
  - right. split; [ | eauto].
    intros T. apply I in T. discriminate T.
Qed.

(** C8: [Phone(raw)] succeeds exactly when [raw] is made of exactly ten
    decimal digits; the value stored then reads back as [raw]; a string of
    another length, or with a character that is not a digit, is rejected
    with a ValidationError. *)
Theorem phone_accepts_exactly_ten_digits (raw : string) :
  ((exists p, Phone.new raw = Ok p) <-> ten_digits raw)
  /\ (forall p, Phone.new raw = Ok p -> Phone.str p = raw)
  /\ (String.length raw <> 10%nat
      \/ (exists c, In c (list_ascii_of_string raw)
                    /\ ~ In c decimal_digits) ->
      exists msg, Phone.new raw = Raise (ValidationError msg)).
Proof.
  destruct (phone_new_cases raw) as [[T E] | [N [msg E]]]; rewrite E.
  - split; [ | split].
    + split; [intros _; exact T | eauto].
    + now intros p [= <-].
    + intros [L | (c & I & D)]; exfalso; destruct T as [Len F].
      * contradiction.
      * rewrite Forall_forall in F. exact (D (F c I)).
  - split; [ | split].
    + split; [intros [p [=]] | contradiction].
    + intros p [=].
    + eauto.
Qed.

End FieldFacts.

Module RecordFacts.
Import FieldFacts.

Lemma add_phone_ok number record :
  ten_digits number ->
  Rec.add_phone number record
  = (Ok tt, Rec.set_phones (Rec.phones record ++ [Phone.mk number]) record).
Proof.
  intros T. apply phone_new_ok_iff in T.
  unfold Rec.add_phone, mbind, lift, modify. now rewrite T.
Qed.

Lemma add_phone_raise number record :
  ~ ten_digits number ->
  exists msg,
    Rec.add_phone number record = (Raise (ValidationError msg), record).
Proof.
  intros N. destruct (phone_new_cases number) as [[T _] | [_ [msg E]]];
    [contradiction | ].
  exists msg. unfold Rec.add_phone, mbind, lift. now rewrite E.
Qed.

Lemma edit_phone_ok old new record :
  ten_digits new ->
  Rec.edit_phone old new record
  = (Ok tt,
     Rec.set_phones
       (filter (fun p => negb (Phone.value p =? old)%string)
               (Rec.phones record ++ [Phone.mk new]))
       record).
Proof.
  intros T. unfold Rec.edit_phone, mbind.
  rewrite (add_phone_ok new record T). reflexivity.
Qed.

Lemma values_filter_out old (ps : list Phone.t) :
  map Phone.value
      (filter (fun p => negb (Phone.value p =? old)%string) ps)
  = filter (fun v => negb (v =? old)%string) (map Phone.value ps).
Proof.
  induction ps as [ | p ps IH]; simpl; [reflexivity | ].
  destruct (Phone.value p =? old)%string; simpl; now rewrite IH.
Qed.

Lemma filter_out_In old v (vs : list string) :
  In v (filter (fun v => negb (v =? old)%string) vs) <-> In v vs /\ v <> old.
Proof.
  rewrite filter_In, negb_true_iff. 
  destruct (String.eqb_spec v old); intuition congruence.
Qed.

Lemma filter_out_length old (vs : list string) :
  (List.length (filter (fun v => negb (v =? old)%string) vs)
   + count_occ string_dec vs old = List.length vs)%nat.
Proof.
  induction vs as [ | v vs IH]; simpl; [reflexivity | ].
  destruct (String.eqb_spec v old) as [E | NE]; simpl;
    destruct (string_dec v old); try contradiction; simpl; lia.
Qed.

Lemma find_phone_none old record :
  Rec.find_phone old record = None <-> ~ In old (phone_values record).
Proof.
  unfold Rec.find_phone, phone_values.
  induction (Rec.phones record) as [ | p ps IH]; simpl.
  - tauto.
  - destruct (String.eqb_spec (Phone.value p) old) as [E | NE].
    + split; [discriminate | intros N; exfalso; apply N; now left].
    + rewrite IH. tauto.
Qed.

(** What [edit_phone] leaves, in general: the old list with [new] appended,
    minus every entry equal to [old]. *)
Lemma edit_phone_values old new record :
  ten_digits new ->
  phone_values (after (Rec.edit_phone old new) record)
  = filter (fun v => negb (v =? old)%string) (phone_values record ++ [new]).
Proof.
  intros T. unfold after. rewrite (edit_phone_ok old new record T).
  unfold phone_values. simpl. now rewrite values_filter_out, map_app.
Qed.

(** C5, as amended: when [old] occurs exactly once, [new] is a valid
    number different from [old] and not yet in the list, [edit_phone]
    returns normally and leaves a list that contains [new], does not
    contain [old], and has the length it had before. *)
Theorem edit_phone_replaces_single_old (record : Rec.t) (old new : string) :
  ten_digits new ->
  count_occ string_dec (phone_values record) old = 1%nat ->
  old <> new ->
  ~ In new (phone_values record) ->
  exists record',
    Rec.edit_phone old new record = (Ok tt, record')
    /\ In new (phone_values record')
    /\ ~ In old (phone_values record')
    /\ List.length (Rec.phones record') = List.length (Rec.phones record).
Proof.
  intros T Once Diff Fresh.
  exists (after (Rec.edit_phone old new) record).
  pose proof (edit_phone_values old new record T) as V.
  split; [ | split; [ | split]].
  - unfold after. now rewrite (edit_phone_ok old new record T).
  - rewrite V, filter_out_In, in_app_iff. split; [right; now left | auto].
  - rewrite V, filter_out_In. tauto.
  - pose proof (filter_out_length old (phone_values record ++ [new])) as L.
    rewrite <- V, count_occ_app, Once in L. simpl in L.
    destruct (string_dec new old); [congruence | ].
    unfold phone_values in L. rewrite !length_map, length_app in L.
    unfold phone_values in L. rewrite length_map in L. simpl in L. lia.
Qed.

(** With [old] equal to [new] the number added is removed again with every
    other copy. *)
Lemma edit_phone_same_removes_all record x :
  ten_digits x ->
  ~ In x (phone_values (after (Rec.edit_phone x x) record)).
Proof.
  intros T. rewrite (edit_phone_values x x record T), filter_out_In. tauto.
Qed.

(** C7: the first successful [add_birthday] stores the birthday it was
    given; any further [add_birthday] on that record raises
    AlreadySetError and leaves the record, hence the stored birthday,
    as it was. *)
Theorem second_add_birthday_fails
    (record record' : Rec.t) (first second : string) :
  Rec.add_birthday first record = (Ok tt, record') ->
  (exists b, Birthday.new first = Ok b /\ Rec.birthday record' = Some b)
  /\ Rec.add_birthday second record' = (Raise AlreadySetError, record')
  /\ Rec.birthday (after (Rec.add_birthday second) record')
     = Rec.birthday record'.
Proof.
  unfold Rec.add_birthday, after, mbind, get, lift, modify, raise.
  destruct (Rec.birthday record) as [b0 | ]; [discriminate | ].
  destruct (Birthday.new first) as [b | e]; [ | discriminate].
  intros [= <-]. simpl. split; [ | split]; eauto.
Qed.

End RecordFacts.

Module HandlerFacts.
Import FieldFacts RecordFacts.

Lemma find_setitem name record book :
  AddressBook.find name (AddressBook.setitem name record book) = Some record.
Proof.
  induction book as [ | [k r] rest IH]; simpl.
  - now rewrite String.eqb_refl.
  - destruct (String.eqb_spec k name) as [E | NE]; simpl.
    + rewrite E. now rewrite String.eqb_refl.
    + destruct (String.eqb_spec k name); [contradiction | exact IH].
Qed.

Section Decorated.
Variable error_text : exn -> string.

Lemma change_contact_updates name old new record book :
  AddressBook.find name book = Some record ->
  In old (phone_values record) ->
  ten_digits new ->
  Handlers.change_contact error_text [name; old; new] book
  = ("Contact updated.",
     AddressBook.setitem name (after (Rec.edit_phone old new) record)
       book).
Proof.
  intros F I T.
  unfold Handlers.change_contact, Handlers.input_error,
    Handlers.Body.change_contact, mbind, get, ret. simpl.
  rewrite F.
  destruct (Rec.find_phone old record) as [p | ] eqn:P.
  - unfold AddressBook.on_record, after. rewrite F.
    now rewrite (edit_phone_ok old new record T).
  - apply find_phone_none in P. contradiction.
Qed.

Lemma change_contact_absent name old new record book :
  AddressBook.find name book = Some record ->
  Rec.find_phone old record = None ->
  Handlers.change_contact error_text [name; old; new] book
  = ("No phone number " ++ old ++ " found for contact " ++ name ++ ".",
     book).
Proof.
  intros F P.
  unfold Handlers.change_contact, Handlers.input_error,
    Handlers.Body.change_contact, mbind, get, ret. simpl.
  now rewrite F, P.
Qed.

(** C10: when the contact exists but has no phone equal to [old], the
    handler answers "No phone number <old> found for contact <name>."
    and the address book it was given is returned as it was: neither
    that record's phone list nor any other record is touched. *)
Theorem change_contact_absent_phone_changes_nothing
    (book : AddressBook.t) (name old new : string) (record : Rec.t) :
  AddressBook.find name book = Some record ->
  ~ In old (phone_values record) ->
  Handlers.change_contact error_text [name; old; new] book
  = ("No phone number " ++ old ++ " found for contact " ++ name ++ ".",
     book)
  /\ AddressBook.find name
       (snd (Handlers.change_contact error_text [name; old; new] book))
     = Some record.
Proof.
  intros F P. apply find_phone_none in P.
  rewrite (change_contact_absent name old new record book F P).
  split; [reflexivity | exact F].
Qed.

(** C6, as amended: with valid ten-digit numbers, the first change turns
    the one-number list [old] into [new]; the same call repeated finds no
    [old], answers "No phone number <old> found for contact <name>." and
    leaves the book as it is, so the list is still the one-element list
    [new]. *)
Theorem repeated_change_is_refused
    (book : AddressBook.t) (name old new : string) (record : Rec.t) :
  AddressBook.find name book = Some record ->
  phone_values record = [old] ->
  ten_digits new ->
  old <> new ->
  let change := Handlers.change_contact error_text [name; old; new] in
  let book1 := snd (change book) in
  fst (change book) = "Contact updated."
  /\ phones_of name book1 = Some [new]
  /\ change book1
     = ("No phone number " ++ old ++ " found for contact " ++ name ++ ".",
        book1).
Proof.
  intros F V T Diff change book1.
  assert (In old (phone_values record)) as I by (rewrite V; now left).
  subst book1 change.
  rewrite (change_contact_updates name old new record book F I T).
  simpl fst; simpl snd.
  assert (phone_values (after (Rec.edit_phone old new) record) = [new])
    as V'.
  { rewrite (edit_phone_values old new record T), V. simpl.
    rewrite String.eqb_refl. simpl.
    destruct (String.eqb_spec new old); [congruence | reflexivity]. }
  split; [reflexivity | split].
  - unfold phones_of. now rewrite find_setitem, <- V'.
  - apply change_contact_absent
      with (record := after (Rec.edit_phone old new) record).
    + apply find_setitem.
    + apply find_phone_none. rewrite V'. simpl. intuition congruence.
Qed.
End Decorated.

End HandlerFacts.

Module Examples.
Import QueryFacts FieldFacts RecordFacts HandlerFacts.

Ltac date_ok := unfold valid; vm_compute; repeat split; discriminate.
Ltac fits := vm_compute; discriminate.
Ltac digits_ok :=
  split; [reflexivity
         | simpl;
           repeat (apply Forall_cons;
                   [repeat (first [left; reflexivity | right]) | ]);
           apply Forall_nil].

(** Tuesday 10.06.2025; Bob was born on 12.06.1985. *)
Lemma inclusion_test_witness :
  (AddressBook._is_date_within_days (mkdate 2025 6 10) (mkdate 1985 6 12) 7
   = Ok true
   <-> exists occ,
         Spec.next_occurrence (mkdate 2025 6 10) 6 12 = Some occ
         /\ Spec.in_window (mkdate 2025 6 10) occ 7)
  /\ (forall occ,
         candidate (mkdate 2025 6 10) 6 12 = Ok occ ->
         Spec.next_occurrence (mkdate 2025 6 10) 6 12 = Some occ
         /\ toordinal (mkdate 2025 6 10) <= toordinal occ).
Proof.
  apply (inclusion_test_is_next_occurrence_in_window (mkdate 2025 6 10)
           ltac:(date_ok) ltac:(fits) (mkdate 1985 6 12)).
Defined.

(** Scenarios A, B and C of the specification, on Tuesday 10.06.2025. *)
Example scenarios_A_B_C :
  AddressBook.get_upcoming_birthdays (mkdate 2025 6 10)
    [("Ann", contact "Ann" [] (Some (mkdate 1990 6 8)));
     ("Bob", contact "Bob" [] (Some (mkdate 1985 6 12)));
     ("Cara", contact "Cara" [] (Some (mkdate 1992 6 15)))]
  = Ok (join AddressBook.newline
          ["Contact name: Bob, birthday: 12.06.2025";
           "Contact name: Cara, birthday: 16.06.2025"]).
Proof. vm_compute. reflexivity. Qed.

(** Saturday 07.06.2025; the birthday falls on Saturday 14.06.2025, the
    last day of the window; the line shows Monday 16.06.2025, nine days
    after today. *)
Lemma weekend_shift_witness :
  let today := mkdate 2025 6 7 in
  let record := contact "Sam" [] (Some (mkdate 1992 6 14)) in
  let occ := mkdate 2025 6 14 in
  let shifted := Spec.congratulation_date occ in
  (Spec.in_window today occ 7 /\ weekday occ = 5)
  /\ (toordinal shifted = toordinal today + 9
      /\ AddressBook.entry record shifted
         = "Contact name: Sam, birthday: 16.06.2025")
  /\ AddressBook._is_date_within_days today (mkdate 1992 6 14) 7 = Ok true
  /\ toordinal shifted = toordinal occ + 2
  /\ weekday shifted = 0
  /\ (forall acc,
         AddressBook.try_body today record (Birthday.mk (mkdate 1992 6 14))
           acc
         = Ok (acc ++ [AddressBook.entry record shifted])%list)
  /\ (forall book,
         In record (AddressBook.values book) ->
         exists lines,
           AddressBook.loop today (AddressBook.values book) [] = Ok lines
           /\ In (AddressBook.entry record shifted) lines
           /\ AddressBook.get_upcoming_birthdays today book
              = Ok (join AddressBook.newline lines)).
Proof.
  intros today record occ shifted.
  split; [split; [vm_compute; split; discriminate | reflexivity] | ].
  split; [split; vm_compute; reflexivity | ].
  apply (weekend_shift_after_inclusion_test today ltac:(date_ok)
           ltac:(fits) record (Birthday.mk (mkdate 1992 6 14)) occ).
  - reflexivity.
  - vm_compute. reflexivity.
  - vm_compute. split; discriminate.
  - left. reflexivity.
Defined.

(** 2025 is not a leap year: a contact born on 29.02.1992 is skipped. *)
Lemma leap_day_witness :
  let today := mkdate 2025 6 10 in
  let bob := ("Bob", contact "Bob" [] (Some (mkdate 1985 6 12))) in
  let leo := contact "Leo" [] (Some (mkdate 1992 2 29)) in
  (forall acc, exists msg,
      AddressBook.try_body today leo (Birthday.mk (mkdate 1992 2 29)) acc
      = Raise (ValueError msg))
  /\ AddressBook.get_upcoming_birthdays today
       ([] ++ ("Leo", leo) :: [bob])%list
     = Ok "Contact name: Bob, birthday: 12.06.2025"
  /\ AddressBook.get_upcoming_birthdays today ([] ++ [bob])%list
     = Ok "Contact name: Bob, birthday: 12.06.2025"
  /\ (forall other line,
        In other (AddressBook.values ([] ++ [bob])%list) ->
        Spec.upcoming_line today other = Some line ->
        In line ["Contact name: Bob, birthday: 12.06.2025"]).
Proof.
  intros today bob leo.
  assert (Spec.upcoming_lines today (AddressBook.values ([] ++ [bob])%list)
          = ["Contact name: Bob, birthday: 12.06.2025"]) as Lines
    by (vm_compute; reflexivity).
  assert (Spec.upcoming today ([] ++ [bob])%list
          = "Contact name: Bob, birthday: 12.06.2025") as Text
    by (vm_compute; reflexivity).
  rewrite <- Lines, <- Text.
  apply (date_construction_failure_skips_record today ltac:(date_ok)
           ltac:(fits) [] [bob] "Leo" leo (Birthday.mk (mkdate 1992 2 29))).
  - reflexivity.
  - right. repeat split; reflexivity.
Defined.

(** Scenario A alone: Ann's next birthday is a year away. *)
Lemma no_match_witness :
  let today := mkdate 2025 6 10 in
  let book := [("Ann", contact "Ann" [] (Some (mkdate 1990 6 8)))] in
  (AddressBook.get_upcoming_birthdays today book = Ok ""
   /\ (book <> [] ->
       Handlers.birthdays (fun _ => "error") today book = ("", book)))
  /\ (fst (Handlers.birthdays (fun _ => "error") today book) = "No contacts."
      <-> book = []).
Proof.
  intros today book.
  destruct (no_match_is_empty_string_not_no_contacts today ltac:(date_ok)
              ltac:(fits) (fun _ => "error") book) as [Empty Only].
  split; [ | exact Only].
  apply Empty. intros record b occ [<- | []] [= <-] Next.
  assert (occ = mkdate 2026 6 8) as -> by (vm_compute in Next; congruence).
  unfold Spec.in_window. vm_compute. intros [_ Late]. now apply Late.
Defined.

(** C5 as stated fails when [old] is stored twice: both copies go and the
    list shrinks from two entries to one. *)
Lemma edit_phone_duplicate_old_shrinks :
  ~ edit_replaces (contact "John" ["0987654321"; "0987654321"] None)
      "0987654321" "1111111111".
Proof.
  unfold edit_replaces. intros Claim.
  destruct Claim as (_ & _ & Len).
  - simpl. now left.
  - discriminate.
  - simpl. intros [E | [E | []]]; discriminate E.
  - vm_compute in Len. discriminate Len.
Qed.

Lemma edit_phone_single_old_witness :
  exists record',
    Rec.edit_phone "0987654321" "1111111111"
      (contact "John" ["0987654321"; "5555555555"] None)
    = (Ok tt, record')
    /\ In "1111111111" (phone_values record')
    /\ ~ In "0987654321" (phone_values record')
    /\ List.length (Rec.phones record') = 2%nat.
Proof.
  apply (edit_phone_replaces_single_old
           (contact "John" ["0987654321"; "5555555555"] None)
           "0987654321" "1111111111").
  - digits_ok.
  - reflexivity.
  - discriminate.
  - simpl. intros [E | [E | []]]; discriminate E.
Defined.

(** C4 fails on the code: editing a number into itself appends it and then
    removes every entry equal to it, the new one included. *)
Theorem edit_phone_same_number_loses_it :
  Rec.edit_phone "0987654321" "0987654321"
    (contact "John" ["0987654321"] None)
  = (Ok tt, contact "John" [] None)
  /\ ~ edit_same_keeps (contact "John" ["0987654321"] None) "0987654321".
Proof.
  split; [reflexivity | ].
  unfold edit_same_keeps. intros Claim.
  assert (In "0987654321"
            (phone_values (contact "John" ["0987654321"] None))) as I
    by (simpl; now left).
  apply Claim in I. vm_compute in I. exact I.
Qed.

(** Scenario E fails at its second step.  The first change does turn the
    list into the one new number; the repeated call finds no old number,
    is refused by the guard of [change_contact] and returns the book as it
    is, so the list does not grow to two entries. *)
Lemma repeated_change_adds_no_copy :
  let change :=
    Handlers.change_contact (fun _ => "error")
      ["John"; "0987654321"; "1111111111"] in
  let book1 := snd (change (john ["0987654321"])) in
  phones_of "John" book1 = Some ["1111111111"]
  /\ change book1
     = ("No phone number 0987654321 found for contact John.", book1)
  /\ phones_of "John" (snd (change book1)) = Some ["1111111111"]
  /\ ~ (exists error_text,
          scenario_E error_text "0987654321" "1111111111").
Proof.
  split; [reflexivity | split; [reflexivity | split; [reflexivity | ]]].
  intros [error_text [_ Second]]. vm_compute in Second.
  discriminate Second.
Qed.

Lemma repeated_change_witness :
  let change :=
    Handlers.change_contact (fun _ => "error")
      ["John"; "0987654321"; "1111111111"] in
  let book1 := snd (change (john ["0987654321"])) in
  fst (change (john ["0987654321"])) = "Contact updated."
  /\ phones_of "John" book1 = Some ["1111111111"]
  /\ change book1
     = ("No phone number 0987654321 found for contact John.", book1).
Proof.
  apply (repeated_change_is_refused (fun _ => "error")
           (john ["0987654321"]) "John" "0987654321" "1111111111"
           (contact "John" ["0987654321"] None)).
  - reflexivity.
  - reflexivity.
  - digits_ok.
  - discriminate.
Defined.

Lemma second_add_birthday_witness :
  (exists b, Birthday.new "08.06.1990" = Ok b
             /\ Rec.birthday
                  (contact "Ann" [] (Some (mkdate 1990 6 8))) = Some b)
  /\ Rec.add_birthday "09.07.1991"
       (contact "Ann" [] (Some (mkdate 1990 6 8)))
     = (Raise AlreadySetError, contact "Ann" [] (Some (mkdate 1990 6 8)))
  /\ Rec.birthday
       (after (Rec.add_birthday "09.07.1991")
              (contact "Ann" [] (Some (mkdate 1990 6 8))))
     = Rec.birthday (contact "Ann" [] (Some (mkdate 1990 6 8))).
Proof.
  apply (second_add_birthday_fails (Rec.init "Ann")
           (contact "Ann" [] (Some (mkdate 1990 6 8)))
           "08.06.1990" "09.07.1991").
  vm_compute. reflexivity.
Defined.

Lemma phone_ten_digits_witness :
  ((exists p, Phone.new "123456789" = Ok p) <-> ten_digits "123456789")
  /\ (forall p, Phone.new "123456789" = Ok p -> Phone.str p = "123456789")
  /\ (String.length "123456789" <> 10%nat
      \/ (exists c, In c (list_ascii_of_string "123456789")
                    /\ ~ In c decimal_digits) ->
      exists msg, Phone.new "123456789" = Raise (ValidationError msg)).
Proof. apply (phone_accepts_exactly_ten_digits "123456789"). Defined.

Lemma change_contact_absent_phone_witness :
  Handlers.change_contact (fun _ => "error")
    ["John"; "0987654321"; "1111111111"] (john ["5555555555"])
  = ("No phone number 0987654321 found for contact John.",
     john ["5555555555"])
  /\ AddressBook.find "John"
       (snd (Handlers.change_contact (fun _ => "error")
               ["John"; "0987654321"; "1111111111"] (john ["5555555555"])))
     = Some (contact "John" ["5555555555"] None).
Proof.
  apply (change_contact_absent_phone_changes_nothing (fun _ => "error")
           (john ["5555555555"]) "John" "0987654321" "1111111111"
           (contact "John" ["5555555555"] None)).
  - reflexivity.
  - simpl. intros [E | []]. discriminate E.
Defined.
End Examples.

Module BookFacts.
Import AddressBook.

Lemma find_none_keys name (book : AddressBook.t) :
  find name book = None <-> ~ In name (keys book).
Proof.
  induction book as [ | [k r] rest IH]; simpl; [tauto | ].
  destruct (String.eqb_spec k name) as [E | NE].
  - split; [discriminate | intros N; exfalso; apply N; now left].
  - rewrite IH. tauto.
Qed.

Lemma find_some_keys name record (book : AddressBook.t) :
  find name book = Some record -> In name (keys book).
Proof.
  intros F. destruct (in_dec string_dec name (keys book)) as [I | N];
    [exact I | ].
  apply find_none_keys in N. congruence.
Qed.

Lemma find_some_In name record (book : AddressBook.t) :
  find name book = Some record -> In (name, record) book.
Proof.
  induction book as [ | [k r] rest IH]; simpl; [discriminate | ].
  destruct (String.eqb_spec k name) as [E | NE].
  - intros [= <-]. left. now rewrite E.
  - intros F. right. now apply IH.
Qed.

Lemma find_setitem_same name record (book : AddressBook.t) :
  find name (setitem name record book) = Some record.
Proof.
  induction book as [ | [k r] rest IH]; simpl.
  - now rewrite String.eqb_refl.
  - destruct (String.eqb_spec k name) as [E | NE]; simpl.
    + rewrite E. now rewrite String.eqb_refl.
    + destruct (String.eqb_spec k name); [contradiction | exact IH].
Qed.

Lemma find_setitem_other name other record (book : AddressBook.t) :
  other <> name ->
  find other (setitem name record book) = find other book.
Proof.
  intros D. induction book as [ | [k r] rest IH]; simpl.
  - destruct (String.eqb_spec name other); [congruence | reflexivity].
  - destruct (String.eqb_spec k name) as [E | NE]; simpl.
    + destruct (String.eqb_spec k other); [congruence | reflexivity].
    + now rewrite IH.
Qed.

Lemma setitem_fresh name record (book : AddressBook.t) :
  find name book = None ->
  setitem name record book = (book ++ [(name, record)])%list.
Proof.
  induction book as [ | [k r] rest IH]; simpl; [reflexivity | ].
  destruct (String.eqb_spec k name); [discriminate | ].
  intros F. now rewrite IH.
Qed.

Lemma setitem_stored name record (book : AddressBook.t) :
  find name book = Some record -> setitem name record book = book.
Proof.
  induction book as [ | [k r] rest IH]; simpl; [discriminate | ].
  destruct (String.eqb_spec k name).
  - now intros [= ->].
  - intros F. now rewrite IH.
Qed.

Lemma keys_setitem name record old (book : AddressBook.t) :
  find name book = Some old ->
  keys (setitem name record book) = keys book.
Proof.
  unfold keys.
  induction book as [ | [k r] rest IH]; simpl; [discriminate | ].
  destruct (String.eqb_spec k name); simpl; [reflexivity | ].
  intros F. now rewrite IH.
Qed.

Lemma keys_setitem_cases name record (book : AddressBook.t) :
  keys (setitem name record book) = keys book
  \/ (~ In name (keys book)
      /\ keys (setitem name record book) = (keys book ++ [name])%list).
Proof.
  destruct (find name book) as [old | ] eqn:F.
  - left. now apply keys_setitem with (old := old).
  - right. split; [now apply find_none_keys | ].
    rewrite (setitem_fresh _ _ _ F). unfold keys. now rewrite map_app.
Qed.

Lemma setitem_unique name record (book : AddressBook.t) :
  NoDup (keys book) -> NoDup (keys (setitem name record book)).
Proof.
  intros U. destruct (keys_setitem_cases name record book) as [-> | [N ->]];
    [exact U | ].
  apply NoDup_app; [exact U | repeat constructor; easy | ].
  intros k I [<- | []]. contradiction.
Qed.

Lemma setitem_named name record (book : AddressBook.t) :
  Name.value (Rec.name record) = name ->
  Forall named book -> Forall named (setitem name record book).
Proof.
  intros E. induction book as [ | [k r] rest IH]; simpl; intros A.
  - repeat constructor. exact E.
  - apply Forall_cons_iff in A as [Hd Tl].
    destruct (String.eqb_spec k name) as [K | NE]; constructor; auto.
    unfold named. simpl. congruence.
Qed.

Lemma setitem_well_formed name record (book : AddressBook.t) :
  Name.value (Rec.name record) = name ->
  well_formed book -> well_formed (setitem name record book).
Proof.
  intros E [U A]. split; [now apply setitem_unique | now apply setitem_named].
Qed.

Lemma delete_eq name book :
  delete name book = (Ok tt, without name book).
Proof.
  unfold delete, modify, without. f_equal.
  destruct (find name book) as [r | ] eqn:F; [reflexivity | ].
  apply find_none_keys in F. symmetry. apply forallb_filter_id.
  apply forallb_forall. intros [k r] I. simpl.
  destruct (String.eqb_spec k name) as [-> | NE]; [ | reflexivity].
  exfalso. apply F. unfold keys. now apply (in_map fst) in I.
Qed.

Lemma find_without_same name (book : AddressBook.t) :
  find name (without name book) = None.
Proof.
  apply find_none_keys. unfold keys, without. rewrite in_map_iff.
  intros ([k r] & E & I). apply filter_In in I as [_ T]. simpl in *.
  subst k. now rewrite String.eqb_refl in T.
Qed.

Lemma find_without_other name other (book : AddressBook.t) :
  other <> name -> find other (without name book) = find other book.
Proof.
  intros D. unfold without.
  induction book as [ | [k r] rest IH]; simpl; [reflexivity | ].
  destruct (String.eqb_spec k name) as [-> | NE]; simpl.
  - destruct (String.eqb_spec name other); [congruence | exact IH].
  - now rewrite IH.
Qed.

Lemma without_absent name (book : AddressBook.t) :
  ~ In name (keys book) -> without name book = book.
Proof.
  intros N. apply find_none_keys in N.
  pose proof (delete_eq name book) as E. unfold delete, modify in E.
  rewrite N in E. now injection E.
Qed.

Lemma without_incl name (book : AddressBook.t) kr :
  In kr (without name book) -> In kr book.
Proof. unfold without. rewrite filter_In. tauto. Qed.

Lemma without_unique name (book : AddressBook.t) :
  NoDup (keys book) -> NoDup (keys (without name book)).
Proof.
  unfold keys, without.
  induction book as [ | [k r] rest IH]; simpl; intros U; [constructor | ].
  inversion U as [ | ? ? N U']; subst.
  destruct (k =? name)%string; simpl; [auto | ].
  constructor; [ | auto].
  rewrite in_map_iff. intros (kr & E & I). apply N.
  rewrite in_map_iff. exists kr. split; [exact E | ].
  apply filter_In in I. tauto.
Qed.

Lemma without_well_formed name (book : AddressBook.t) :
  well_formed book -> well_formed (without name book).
Proof.
  intros [U A]. split; [now apply without_unique | ].
  rewrite Forall_forall in *. intros kr I. apply A.
  now apply without_incl in I.
Qed.

Lemma without_length name record (book : AddressBook.t) :
  NoDup (keys book) ->
  find name book = Some record ->
  (List.length (without name book) + 1 = List.length book)%nat.
Proof.
  unfold keys, without.
  induction book as [ | [k r] rest IH]; simpl; [discriminate | ].
  intros U. inversion U as [ | ? ? N U']; subst.
  destruct (String.eqb_spec k name) as [-> | NE]; simpl.
  - intros _. fold (without name rest).
    rewrite (without_absent name rest N). lia.
  - intros F. specialize (IH U' F). lia.
Qed.

(** X1: [find] after [add_record] returns the record added, and no other
    name is looked up differently. *)
Theorem add_record_then_find (record : Rec.t) (book : AddressBook.t) :
  let name := Name.value (Rec.name record) in
  let book' := book_after (add_record record) book in
  add_record record book = (Ok tt, book')
  /\ find name book' = Some record
  /\ (forall other, other <> name -> find other book' = find other book).
Proof.
  intros name book'. subst book'. unfold book_after, add_record, modify.
  simpl. split; [reflexivity | split].
  - apply find_setitem_same.
  - intros other D. now apply find_setitem_other.
Qed.

(** X2: [add_record] follows the dict: a new name goes to the end of the
    iteration order, a name already present keeps its place and only its
    record is replaced. *)
Theorem add_record_keeps_insertion_order
    (record : Rec.t) (book : AddressBook.t) :
  let name := Name.value (Rec.name record) in
  let book' := book_after (add_record record) book in
  (find name book = None -> book' = (book ++ [(name, record)])%list)
  /\ (forall old, find name book = Some old ->
        keys book' = keys book
        /\ List.length book' = List.length book
        /\ find name book' = Some record)
  /\ (find name book = Some record -> book' = book).
Proof.
  intros name book'. subst book'. unfold book_after, add_record, modify.
  simpl. split; [ | split].
  - apply setitem_fresh.
  - intros old F. pose proof (keys_setitem name record old book F) as K.
    split; [exact K | split; [ | apply find_setitem_same]].
    apply (f_equal (@List.length string)) in K. unfold keys in K.
    now rewrite !length_map in K.
  - apply setitem_stored.
Qed.

(** X3: [delete] never raises; afterwards the name is not found, every other
    name is found as before, and a name that was not there leaves the book
    as it was. *)
Theorem delete_then_find (name : string) (book : AddressBook.t) :
  let book' := book_after (delete name) book in
  delete name book = (Ok tt, book')
  /\ find name book' = None
  /\ (forall other, other <> name -> find other book' = find other book)
  /\ (find name book = None -> book' = book).
Proof.
  intros book'. subst book'. unfold book_after. rewrite delete_eq. simpl.
  split; [reflexivity | split; [ | split]].
  - apply find_without_same.
  - intros other D. now apply find_without_other.
  - intros F. apply without_absent. now apply find_none_keys.
Qed.

(** X4: Deleting a contact that was just added under a new name gives the book
    back. *)
Theorem delete_undoes_add_record (record : Rec.t) (book : AddressBook.t) :
  find (Name.value (Rec.name record)) book = None ->
  book_after (delete (Name.value (Rec.name record)))
    (book_after (add_record record) book)
  = book.
Proof.
  intros F. unfold book_after at 1. rewrite delete_eq. simpl.
  unfold book_after, add_record, modify. simpl.
  rewrite (setitem_fresh _ _ _ F). unfold without.
  rewrite filter_app. simpl. rewrite String.eqb_refl. simpl.
  rewrite app_nil_r. apply without_absent. now apply find_none_keys.
Qed.

(** X5: [add_record] and [delete] keep a book well formed (one entry per key,
    every record under its own name), and deleting a name that is present
    removes exactly one entry. *)
Theorem add_record_and_delete_keep_well_formed
    (book : AddressBook.t) (record : Rec.t) (name : string) :
  well_formed book ->
  well_formed (book_after (add_record record) book)
  /\ well_formed (book_after (delete name) book)
  /\ (forall stored, find name book = Some stored ->
        (List.length (book_after (delete name) book) + 1
         = List.length book)%nat).
Proof.
  intros W. unfold book_after. rewrite delete_eq. simpl.
  split; [ | split].
  - now apply setitem_well_formed.
  - now apply without_well_formed.
  - intros stored F. destruct W as [U _].
    now apply without_length with (record := stored).
Qed.

End BookFacts.

Module RecordOps.
Import FieldFacts RecordFacts.

Lemma set_phones_same (record : Rec.t) :
  Rec.set_phones (Rec.phones record) record = record.
Proof. now destruct record. Qed.

Lemma phone_new_stores raw p : Phone.new raw = Ok p -> p = Phone.mk raw.
Proof.
  unfold Phone.new.
  destruct ((String.length raw =? 10)%nat && Phone.all_digits raw)%bool;
    [now intros [= <-] | discriminate].
Qed.

Lemma add_phone_accepted number p record :
  Phone.new number = Ok p ->
  Rec.add_phone number record
  = (Ok tt, Rec.set_phones (Rec.phones record ++ [p]) record).
Proof.
  intros N. unfold Rec.add_phone, mbind, lift, modify. now rewrite N.
Qed.

Lemma add_phone_rejected number e record :
  Phone.new number = Raise e ->
  Rec.add_phone number record = (Raise e, record).
Proof.
  intros N. unfold Rec.add_phone, mbind, lift. now rewrite N.
Qed.

Lemma remove_phone_values number record :
  phone_values (after (Rec.remove_phone number) record)
  = filter (fun v => negb (v =? number)%string) (phone_values record).
Proof.
  unfold after, Rec.remove_phone, modify, phone_values. simpl.
  apply values_filter_out.
Qed.

Lemma filter_out_absent number (ps : list Phone.t) :
  ~ In number (map Phone.value ps) ->
  filter (fun p => negb (Phone.value p =? number)%string) ps = ps.
Proof.
  intros N. apply forallb_filter_id, forallb_forall. intros p I.
  destruct (String.eqb_spec (Phone.value p) number) as [E | NE];
    [ | reflexivity].
  exfalso. apply N. rewrite <- E. now apply in_map.
Qed.

Lemma filter_out_count number v (vs : list string) :
  v <> number ->
  count_occ string_dec (filter (fun v => negb (v =? number)%string) vs) v
  = count_occ string_dec vs v.
Proof.
  intros D. induction vs as [ | w vs IH]; simpl; [reflexivity | ].
  destruct (String.eqb_spec w number) as [-> | NE]; simpl.
  - destruct (string_dec number v); [congruence | exact IH].
  - destruct (string_dec w v); now rewrite IH.
Qed.

(** X6: [remove_phone] never raises.  It removes every entry equal to the
    number and nothing else (each other number keeps its count), leaves the
    record as it was when the number is absent, and doing it again changes
    nothing more. *)
Theorem remove_phone_removes_every_copy (number : string) (record : Rec.t) :
  let record' := after (Rec.remove_phone number) record in
  Rec.remove_phone number record = (Ok tt, record')
  /\ ~ In number (phone_values record')
  /\ (forall v, v <> number ->
        count_occ string_dec (phone_values record') v
        = count_occ string_dec (phone_values record) v)
  /\ (~ In number (phone_values record) -> record' = record)
  /\ after (Rec.remove_phone number) record' = record'.
Proof.
  intros record'.
  assert (forall r, ~ In number (phone_values r) ->
                    after (Rec.remove_phone number) r = r) as Absent.
  { intros r N. unfold after, Rec.remove_phone, modify. simpl.
    rewrite (filter_out_absent number (Rec.phones r) N).
    apply set_phones_same. }
  assert (~ In number (phone_values record')) as Gone.
  { subst record'. rewrite remove_phone_values, filter_out_In. tauto. }
  split; [reflexivity | split; [exact Gone | split; [ | split]]].
  - intros v D. subst record'. rewrite remove_phone_values.
    now apply filter_out_count.
  - apply Absent.
  - now apply Absent.
Qed.

Lemma find_first {A : Type} (f : A -> bool) (l : list A) (x : A) :
  List.find f l = Some x ->
  f x = true
  /\ exists l1 l2, l = (l1 ++ x :: l2)%list
                   /\ forall y, In y l1 -> f y = false.
Proof.
  induction l as [ | a l IH]; simpl; [discriminate | ].
  destruct (f a) eqn:Fa.
  - intros [= <-]. split; [exact Fa | ]. exists [], l. now split.
  - intros F. destruct (IH F) as (Fx & l1 & l2 & -> & B).
    split; [exact Fx | ]. exists (a :: l1), l2. split; [reflexivity | ].
    intros y [<- | I]; auto.
Qed.

(** X7: [find_phone] returns the first entry whose value is the number asked
    for, and [None] exactly when no entry has that value. *)
Theorem find_phone_first_match (number : string) (record : Rec.t) :
  (forall p, Rec.find_phone number record = Some p ->
     Phone.value p = number
     /\ exists before behind,
          Rec.phones record = (before ++ p :: behind)%list
          /\ ~ In number (map Phone.value before))
  /\ (Rec.find_phone number record = None
      <-> ~ In number (phone_values record)).
Proof.
  split; [ | apply find_phone_none].
  intros p F. unfold Rec.find_phone in F.
  apply find_first in F as (V & l1 & l2 & E & B).
  apply String.eqb_eq in V. split; [exact V | ].
  exists l1, l2. split; [exact E | ].
  rewrite in_map_iff. intros (q & Vq & I). apply B in I.
  rewrite Vq, String.eqb_refl in I. discriminate I.
Qed.

Lemma edit_phone_rejected old number e record :
  Phone.new number = Raise e ->
  Rec.edit_phone old number record = (Raise e, record).
Proof.
  intros N. unfold Rec.edit_phone, mbind.
  now rewrite (add_phone_rejected number e record N).
Qed.

(** X8: A number that [Phone] rejects changes nothing: [add_phone] and
    [edit_phone] raise the constructor's error and the record, the old
    number included, is as before. *)
Theorem rejected_number_changes_nothing
    (number old : string) (e : exn) (record : Rec.t) :
  Phone.new number = Raise e ->
  Rec.add_phone number record = (Raise e, record)
  /\ Rec.edit_phone old number record = (Raise e, record).
Proof.
  intros N. split.
  - now apply add_phone_rejected.
  - now apply edit_phone_rejected.
Qed.

(** X9: [add_phone] does not look for duplicates: an accepted number goes to
    the end of the list, once more each time; removing it again restores a
    record that did not have it. *)
Theorem add_phone_appends_without_dedup
    (number : string) (p : Phone.t) (record : Rec.t) :
  Phone.new number = Ok p ->
  let record' := after (Rec.add_phone number) record in
  Rec.add_phone number record = (Ok tt, record')
  /\ Rec.phones record' = (Rec.phones record ++ [p])%list
  /\ count_occ string_dec (phone_values record') number
     = S (count_occ string_dec (phone_values record) number)
  /\ (~ In number (phone_values record) ->
      after (Rec.remove_phone number) record' = record).
Proof.
  intros N record'. subst record'. unfold after.
  rewrite (add_phone_accepted number p record N). simpl.
  apply phone_new_stores in N. subst p.
  split; [reflexivity | split; [reflexivity | split]].
  - unfold phone_values. simpl. rewrite map_app, count_occ_app. simpl.
    destruct (string_dec number number); [lia | congruence].
  - intros Absent. unfold Rec.remove_phone, modify. simpl.
    rewrite filter_app. simpl. rewrite String.eqb_refl. simpl.
    rewrite app_nil_r, (filter_out_absent number _ Absent).
    now destruct record.
Qed.

(** X10: [edit_phone] with an old number that is absent only adds the new one:
    nothing is removed and no error is raised. *)
Theorem edit_phone_absent_old_only_adds
    (old new : string) (p : Phone.t) (record : Rec.t) :
  Phone.new new = Ok p ->
  old <> new ->
  ~ In old (phone_values record) ->
  Rec.edit_phone old new record
  = (Ok tt, Rec.set_phones (Rec.phones record ++ [p]) record).
Proof.
  intros N D Absent. unfold Rec.edit_phone, mbind.
  rewrite (add_phone_accepted new p record N).
  apply phone_new_stores in N. subst p.
  unfold Rec.remove_phone, modify. simpl. rewrite filter_app. simpl.
  destruct (String.eqb_spec new old) as [E | _]; [congruence | ]. simpl.
  now rewrite (filter_out_absent old _ Absent).
Qed.

Lemma length_append (s t : string) :
  String.length (s ++ t) = (String.length s + String.length t)%nat.
Proof. induction s as [ | c s IH]; simpl; [reflexivity | now rewrite IH]. Qed.

(** X11: [show_birthday] answers "No birthday set" exactly when the record has
    no birthday, whatever the contact is called. *)
Theorem show_birthday_tells_whether_set (record : Rec.t) :
  Rec.show_birthday record = "No birthday set"
  <-> Rec.birthday record = None.
Proof.
  unfold Rec.show_birthday.
  destruct (Rec.birthday record) as [b | ]; split; try easy.
  intros E. apply (f_equal String.length) in E.
  rewrite !length_append in E. simpl in E. lia.
Qed.

End RecordOps.

Module HandlerOps.
Import FieldFacts RecordFacts BookFacts RecordOps.
Import Handlers.

Ltac run_body :=
  unfold Body.add_contact, Body.change_contact, Body.add_birthday,
    Body.show_phone, Body.show_birthday, Body.show_all, Body.birthdays,
    mbind, get, ret, raise, lift; simpl.

Lemma on_record_ok {A : Type} name (method : M Rec.t A) record a record' book :
  AddressBook.find name book = Some record ->
  method record = (Ok a, record') ->
  AddressBook.on_record name method book
  = (Ok (Some a), AddressBook.setitem name record' book).
Proof. intros F E. unfold AddressBook.on_record. now rewrite F, E. Qed.

Lemma on_record_raise {A : Type} name (method : M Rec.t A) record e book :
  AddressBook.find name book = Some record ->
  method record = (Raise e, record) ->
  AddressBook.on_record name method book = (Raise e, book).
Proof.
  intros F E. unfold AddressBook.on_record. rewrite F, E.
  now rewrite (setitem_stored name record book F).
Qed.

Lemma find_phone_some number record :
  In number (phone_values record) ->
  exists p, Rec.find_phone number record = Some p.
Proof.
  intros I. destruct (Rec.find_phone number record) as [p | ] eqn:F;
    [eauto | ].
  apply find_phone_none in F. contradiction.
Qed.

(** ** The handler bodies, case by case *)

Lemma body_add_contact_new name phone p book :
  AddressBook.find name book = None ->
  Phone.new phone = Ok p ->
  Body.add_contact [name; phone] book
  = (Ok "Contact added.",
     (book ++ [(name, Rec.mk (Name.new name) [p] None)])%list).
Proof.
  intros F N. run_body. rewrite F.
  rewrite (add_phone_accepted phone p (Rec.init name) N). simpl.
  unfold AddressBook.add_record, modify. simpl.
  now rewrite (setitem_fresh name _ book F).
Qed.

Lemma body_add_contact_existing name phone p record book :
  AddressBook.find name book = Some record ->
  ~ In phone (phone_values record) ->
  Phone.new phone = Ok p ->
  Body.add_contact [name; phone] book
  = (Ok ("Phone number added to existing contact " ++ name ++ "."),
     AddressBook.setitem name
       (Rec.set_phones (Rec.phones record ++ [p]) record) book).
Proof.
  intros F Absent N. run_body. rewrite F.
  apply find_phone_none in Absent. rewrite Absent.
  now rewrite (on_record_ok name _ record tt _ book F
                 (add_phone_accepted phone p record N)).
Qed.

Lemma body_add_contact_known name phone record book :
  AddressBook.find name book = Some record ->
  In phone (phone_values record) ->
  Body.add_contact [name; phone] book
  = (Ok ("Contact " ++ name ++ " already has this phone number."), book).
Proof.
  intros F I. run_body. rewrite F.
  destruct (find_phone_some phone record I) as [p ->]. reflexivity.
Qed.

Lemma body_add_contact_rejected name phone e book :
  Phone.new phone = Raise e ->
  (forall record, AddressBook.find name book = Some record ->
                  ~ In phone (phone_values record)) ->
  Body.add_contact [name; phone] book = (Raise e, book).
Proof.
  intros N Absent. run_body.
  destruct (AddressBook.find name book) as [record | ] eqn:F.
  - specialize (Absent record eq_refl). apply find_phone_none in Absent.
    rewrite Absent.
    now rewrite (on_record_raise name _ record e book F
                   (add_phone_rejected phone e record N)).
  - now rewrite (add_phone_rejected phone e (Rec.init name) N).
Qed.

Lemma body_change_contact_edit name old new record book :
  AddressBook.find name book = Some record ->
  In old (phone_values record) ->
  Body.change_contact [name; old; new] book
  = match Rec.edit_phone old new record with
    | (Ok _, record') =>
        (Ok "Contact updated.", AddressBook.setitem name record' book)
    | (Raise e, record') =>
        (Raise e, AddressBook.setitem name record' book)
    end.
Proof.
  intros F I. run_body. rewrite F.
  destruct (find_phone_some old record I) as [p ->].
  unfold AddressBook.on_record. rewrite F.
  now destruct (Rec.edit_phone old new record) as [[[] | e] record'].
Qed.

Lemma body_add_birthday_new name birthday b book :
  AddressBook.find name book = None ->
  Birthday.new birthday = Ok b ->
  Body.add_birthday [name; birthday] book
  = (Ok "Contact with birthday added.",
     (book ++ [(name, Rec.mk (Name.new name) [] (Some b))])%list).
Proof.
  intros F N. run_body. rewrite F.
  unfold Rec.add_birthday, mbind, get, lift, modify. simpl. rewrite N.
  simpl. unfold AddressBook.add_record, modify. simpl.
  now rewrite (setitem_fresh name _ book F).
Qed.

Lemma body_add_birthday_existing name birthday b record book :
  AddressBook.find name book = Some record ->
  Rec.birthday record = None ->
  Birthday.new birthday = Ok b ->
  Body.add_birthday [name; birthday] book
  = (Ok ("Birthday added to existing contact " ++ name ++ "."),
     AddressBook.setitem name (Rec.set_birthday (Some b) record) book).
Proof.
  intros F B N. run_body. rewrite F.
  unfold AddressBook.on_record. rewrite F.
  unfold Rec.add_birthday, mbind, get, lift, modify. simpl.
  now rewrite B, N.
Qed.

Lemma body_add_birthday_already_set name birthday b0 record book :
  AddressBook.find name book = Some record ->
  Rec.birthday record = Some b0 ->
  Body.add_birthday [name; birthday] book = (Raise AlreadySetError, book).
Proof.
  intros F B. run_body. rewrite F.
  rewrite (on_record_raise name _ record AlreadySetError book F);
    [reflexivity | ].
  unfold Rec.add_birthday, mbind, get, raise. simpl. now rewrite B.
Qed.

Lemma body_add_birthday_rejected name birthday e book :
  Birthday.new birthday = Raise e ->
  (forall record, AddressBook.find name book = Some record ->
                  Rec.birthday record = None) ->
  Body.add_birthday [name; birthday] book = (Raise e, book).
Proof.
  intros N Unset. run_body.
  destruct (AddressBook.find name book) as [record | ] eqn:F.
  - rewrite (on_record_raise name _ record e book F); [reflexivity | ].
    unfold Rec.add_birthday, mbind, get, lift. simpl.
    now rewrite (Unset record eq_refl), N.
  - unfold Rec.add_birthday, mbind, get, lift. simpl. now rewrite N.
Qed.

Lemma phone_new_accepts raw p : Phone.new raw = Ok p -> ten_digits raw.
Proof.
  intros N. destruct (phone_new_cases raw) as [[T _] | [_ [msg E]]];
    [exact T | congruence].
Qed.

Lemma setitem_In name record (book : AddressBook.t) kr :
  In kr (AddressBook.setitem name record book) ->
  kr = (name, record) \/ In kr book.
Proof.
  induction book as [ | [k r] rest IH]; simpl.
  - intros [<- | []]. now left.
  - destruct (String.eqb_spec k name) as [-> | NE]; simpl.
    + intros [<- | I]; auto.
    + intros [<- | I]; auto. destruct (IH I); auto.
Qed.

Lemma edit_phone_keeps_name old new record :
  Rec.name (after (Rec.edit_phone old new) record) = Rec.name record
  /\ Rec.birthday (after (Rec.edit_phone old new) record)
     = Rec.birthday record.
Proof.
  unfold after, Rec.edit_phone, Rec.add_phone, Rec.remove_phone, mbind,
    lift, modify.
  now destruct (Phone.new new).
Qed.

Lemma add_phone_keeps_name phone record :
  Rec.name (snd (Rec.add_phone phone record)) = Rec.name record.
Proof.
  unfold Rec.add_phone, mbind, lift, modify. now destruct (Phone.new phone).
Qed.

Lemma add_birthday_keeps_name birthday record :
  Rec.name (snd (Rec.add_birthday birthday record)) = Rec.name record.
Proof.
  unfold Rec.add_birthday, mbind, get, lift, modify, raise.
  destruct (Rec.birthday record); [reflexivity | ].
  now destruct (Birthday.new birthday).
Qed.

Lemma stored_under_own_name name record book :
  well_formed book ->
  AddressBook.find name book = Some record ->
  Name.value (Rec.name record) = name.
Proof.
  intros [_ A] F. apply find_some_In in F.
  rewrite Forall_forall in A. exact (A _ F).
Qed.

Lemma on_record_well_formed {A : Type} name (method : M Rec.t A) book :
  (forall r, Rec.name (snd (method r)) = Rec.name r) ->
  well_formed book ->
  well_formed (snd (AddressBook.on_record name method book)).
Proof.
  intros Keeps W. unfold AddressBook.on_record.
  destruct (AddressBook.find name book) as [record | ] eqn:F; [ | exact W].
  pose proof (Keeps record) as K.
  pose proof (stored_under_own_name name record book W F) as Own.
  destruct (method record) as [[a | e] record']; simpl in *;
    apply setitem_well_formed; congruence.
Qed.

Lemma add_record_well_formed record book :
  well_formed book ->
  well_formed (snd (AddressBook.add_record record book)).
Proof.
  intros W. unfold AddressBook.add_record, modify. simpl.
  now apply setitem_well_formed.
Qed.

Lemma snd_input_error {S : Type} error_text (func : M S string) (s : S) :
  snd (input_error error_text func s) = snd (func s).
Proof. unfold input_error. now destruct (func s) as [[out | e] s']. Qed.

Section Decorated.
Variable error_text : exn -> string.

(** X12: [add] for a name that is not in the book yet, with a number [Phone]
    accepts: the answer is "Contact added." and the book gains, at its
    end, a contact with that name, that one number and no birthday. *)
Theorem add_contact_creates_contact
    (book : AddressBook.t) (name phone : string) (p : Phone.t) :
  AddressBook.find name book = None ->
  Phone.new phone = Ok p ->
  add_contact error_text [name; phone] book
  = ("Contact added.",
     (book ++ [(name, Rec.mk (Name.new name) [p] None)])%list).
Proof.
  intros F N. unfold add_contact, input_error.
  now rewrite (body_add_contact_new name phone p book F N).
Qed.

(** X13: [add] for an existing contact that does not have the number: the
    number is appended to that contact's list; its name and birthday, the
    order of the book and every other contact stay as they were. *)
Theorem add_contact_extends_contact
    (book : AddressBook.t) (name phone : string) (p : Phone.t)
    (record : Rec.t) :
  AddressBook.find name book = Some record ->
  ~ In phone (phone_values record) ->
  Phone.new phone = Ok p ->
  let book' := snd (add_contact error_text [name; phone] book) in
  fst (add_contact error_text [name; phone] book)
  = "Phone number added to existing contact " ++ name ++ "."
  /\ AddressBook.find name book'
     = Some (Rec.mk (Rec.name record) (Rec.phones record ++ [p])
               (Rec.birthday record))
  /\ keys book' = keys book
  /\ (forall other, other <> name ->
        AddressBook.find other book' = AddressBook.find other book).
Proof.
  intros F Absent N book'. subst book'. unfold add_contact, input_error.
  rewrite (body_add_contact_existing name phone p record book F Absent N).
  simpl. split; [reflexivity | split; [ | split]].
  - apply find_setitem_same.
  - now apply keys_setitem with (old := record).
  - intros other D. now apply find_setitem_other.
Qed.

(** X14: [add] never stores a number twice in one contact: when the contact
    already has the number the answer says so and the book is unchanged,
    and whatever the arguments, lists without repetition stay so. *)
Theorem add_contact_keeps_numbers_distinct
    (book : AddressBook.t) (args : list string) :
  (forall name record, In (name, record) book ->
                       NoDup (phone_values record)) ->
  (forall name phone record,
      args = [name; phone] ->
      AddressBook.find name book = Some record ->
      In phone (phone_values record) ->
      add_contact error_text args book
      = ("Contact " ++ name ++ " already has this phone number.", book))
  /\ (forall name record,
        In (name, record) (snd (add_contact error_text args book)) ->
        NoDup (phone_values record)).
Proof.
  intros Distinct. split.
  - intros name phone record -> F I. unfold add_contact, input_error.
    now rewrite (body_add_contact_known name phone record book F I).
  - unfold add_contact, input_error.
    destruct args as [ | name [ | phone [ | extra rest]]];
      try (simpl; exact Distinct).
    destruct (AddressBook.find name book) as [record | ] eqn:F.
    + destruct (in_dec string_dec phone (phone_values record)) as [I | A].
      * rewrite (body_add_contact_known name phone record book F I).
        exact Distinct.
      * destruct (Phone.new phone) as [p | e] eqn:N.
        -- rewrite (body_add_contact_existing name phone p record book
                      F A N). simpl.
           intros n r I. apply setitem_In in I as [[= -> ->] | I];
             [ | eauto].
           apply phone_new_stores in N. subst p.
           unfold phone_values. simpl. rewrite map_app. simpl.
           apply NoDup_app.
           ++ apply (Distinct name). now apply find_some_In.
           ++ repeat constructor. easy.
           ++ intros v Iv [<- | []]. contradiction.
        -- rewrite (body_add_contact_rejected name phone e book N).
           ++ exact Distinct.
           ++ intros r Fr. congruence.
    + destruct (Phone.new phone) as [p | e] eqn:N.
      * rewrite (body_add_contact_new name phone p book F N). simpl.
        intros n r I. apply in_app_iff in I as [I | [[= <- <-] | []]];
          [eauto | ].
        repeat constructor. easy.
      * rewrite (body_add_contact_rejected name phone e book N).
        -- exact Distinct.
        -- intros r Fr. congruence.
Qed.

(** X15: A number that [Phone] rejects leaves the book as it was: [add] creates
    no empty contact for a new name, [change] keeps the old number; the
    handler body raises the constructor's error. *)
Theorem rejected_number_leaves_book_unchanged
    (book : AddressBook.t) (name old phone : string) (e : exn) :
  Phone.new phone = Raise e ->
  ((forall record, AddressBook.find name book = Some record ->
                   ~ In phone (phone_values record)) ->
   Body.add_contact [name; phone] book = (Raise e, book)
   /\ add_contact error_text [name; phone] book = (error_text e, book))
  /\ (forall record,
        AddressBook.find name book = Some record ->
        In old (phone_values record) ->
        Body.change_contact [name; old; phone] book = (Raise e, book)
        /\ change_contact error_text [name; old; phone] book
           = (error_text e, book)).
Proof.
  intros N. split.
  - intros Absent.
    pose proof (body_add_contact_rejected name phone e book N Absent) as B.
    split; [exact B | ]. unfold add_contact, input_error. now rewrite B.
  - intros record F I.
    assert (Body.change_contact [name; old; phone] book = (Raise e, book))
      as B.
    { rewrite (body_change_contact_edit name old phone record book F I).
      rewrite (edit_phone_rejected old phone e record N).
      now rewrite (setitem_stored name record book F). }
    split; [exact B | ]. unfold change_contact, input_error. now rewrite B.
Qed.

(** X16: A successful [change] touches one contact only: the order of the book
    and every other contact are as before; the contact keeps its name and
    birthday, and its numbers are the old list with the new number
    appended, minus every entry equal to the old number. *)
Theorem change_contact_touches_one_contact
    (book : AddressBook.t) (name old new : string) (p : Phone.t)
    (record : Rec.t) :
  AddressBook.find name book = Some record ->
  In old (phone_values record) ->
  Phone.new new = Ok p ->
  let book' := snd (change_contact error_text [name; old; new] book) in
  fst (change_contact error_text [name; old; new] book) = "Contact updated."
  /\ keys book' = keys book
  /\ (forall other, other <> name ->
        AddressBook.find other book' = AddressBook.find other book)
  /\ exists record',
       AddressBook.find name book' = Some record'
       /\ Rec.name record' = Rec.name record
       /\ Rec.birthday record' = Rec.birthday record
       /\ phone_values record'
          = filter (fun v => negb (v =? old)%string)
              (phone_values record ++ [new]).
Proof.
  intros F I N book'. subst book'.
  pose proof (phone_new_accepts new p N) as T.
  rewrite (HandlerFacts.change_contact_updates error_text name old new
             record book F I T). simpl.
  split; [reflexivity | split; [ | split]].
  - now apply keys_setitem with (old := record).
  - intros other D. now apply find_setitem_other.
  - exists (after (Rec.edit_phone old new) record).
    destruct (edit_phone_keeps_name old new record) as [Hn Hb].
    split; [apply find_setitem_same | ].
    split; [exact Hn | split; [exact Hb | ]].
    now apply edit_phone_values.
Qed.

(** X17: The number of arguments.  Too few (for [phone] and [show-birthday]:
    any number but one) are answered with the usage line of the command.
    Too many for [add], [add-birthday] or [change] are not: the body raises
    the [ValueError] of the unpacking.  The book is not touched either
    way. *)
Theorem argument_count_is_checked
    (book : AddressBook.t) (args : list string) :
  ((List.length args < 2)%nat ->
   add_contact error_text args book
   = ("Insufficient arguments. Usage: add <name> <phone>", book)
   /\ add_birthday error_text args book
      = ("Insufficient arguments. Usage: add-birthday <name> <birthday>",
         book))
  /\ ((List.length args < 3)%nat ->
      change_contact error_text args book
      = ("Insufficient arguments. Usage: change <name> <old_phone> <new_phone>",
         book))
  /\ (List.length args <> 1%nat ->
      show_phone error_text args book
      = ("Insufficient arguments. Usage: phone <name>", book)
      /\ show_birthday error_text args book
         = ("Insufficient arguments. Usage: show-birthday <name>", book))
  /\ ((2 < List.length args)%nat ->
      let e := ValueError "too many values to unpack (expected 2)" in
      Body.add_contact args book = (Raise e, book)
      /\ Body.add_birthday args book = (Raise e, book)
      /\ add_contact error_text args book = (error_text e, book)
      /\ add_birthday error_text args book = (error_text e, book))
  /\ ((3 < List.length args)%nat ->
      let e := ValueError "too many values to unpack (expected 3)" in
      Body.change_contact args book = (Raise e, book)
      /\ change_contact error_text args book = (error_text e, book)).
Proof.
  unfold add_contact, add_birthday, change_contact, show_phone,
    show_birthday, input_error.
  destruct args as [ | a [ | b [ | c [ | d rest]]]]; simpl;
    repeat split; intros; try reflexivity; try lia; congruence.
Qed.

(** X18: [add-birthday] with a date [Birthday] accepts: a new name becomes a
    contact with that birthday and no number, at the end of the book; an
    existing contact without a birthday gets it, keeping its name, its
    numbers and its place, and no other contact changes. *)
Theorem add_birthday_stores_birthday
    (book : AddressBook.t) (name birthday : string) (b : Birthday.t) :
  Birthday.new birthday = Ok b ->
  (AddressBook.find name book = None ->
   add_birthday error_text [name; birthday] book
   = ("Contact with birthday added.",
      (book ++ [(name, Rec.mk (Name.new name) [] (Some b))])%list))
  /\ (forall record,
        AddressBook.find name book = Some record ->
        Rec.birthday record = None ->
        let book' := snd (add_birthday error_text [name; birthday] book) in
        fst (add_birthday error_text [name; birthday] book)
        = "Birthday added to existing contact " ++ name ++ "."
        /\ AddressBook.find name book'
           = Some (Rec.mk (Rec.name record) (Rec.phones record) (Some b))
        /\ keys book' = keys book
        /\ (forall other, other <> name ->
              AddressBook.find other book'
              = AddressBook.find other book)).
Proof.
  intros N. unfold add_birthday, input_error. split.
  - intros F. now rewrite (body_add_birthday_new name birthday b book F N).
  - intros record F B. cbv zeta.
    rewrite (body_add_birthday_existing name birthday b record book F B N).
    simpl. split; [reflexivity | split; [ | split]].
    + apply find_setitem_same.
    + now apply keys_setitem with (old := record).
    + intros other D. now apply find_setitem_other.
Qed.

(** X19: [add-birthday] that fails changes nothing: for a contact that has a
    birthday the body raises "Birthday is already set" whatever the new
    date is, and a date [Birthday] rejects creates no contact and sets no
    birthday. *)
Theorem add_birthday_failure_changes_nothing
    (book : AddressBook.t) (name birthday : string) :
  (forall record b0,
      AddressBook.find name book = Some record ->
      Rec.birthday record = Some b0 ->
      Body.add_birthday [name; birthday] book
      = (Raise (ValueError "Birthday is already set"), book)
      /\ add_birthday error_text [name; birthday] book
         = (error_text (ValueError "Birthday is already set"), book))
  /\ (forall e,
        Birthday.new birthday = Raise e ->
        (forall record, AddressBook.find name book = Some record ->
                        Rec.birthday record = None) ->
        Body.add_birthday [name; birthday] book = (Raise e, book)
        /\ add_birthday error_text [name; birthday] book
           = (error_text e, book)).
Proof.
  unfold add_birthday, input_error. split.
  - intros record b0 F B.
    rewrite (body_add_birthday_already_set name birthday b0 record book F B).
    now split.
  - intros e N Unset.
    rewrite (body_add_birthday_rejected name birthday e book N Unset).
    now split.
Qed.

Lemma show_phone_reads book args :
  snd (show_phone error_text args book) = book.
Proof.
  unfold show_phone, input_error.
  destruct args as [ | a [ | b rest]]; run_body; try reflexivity.
  now destruct (AddressBook.find a book).
Qed.

Lemma show_birthday_reads book args :
  snd (show_birthday error_text args book) = book.
Proof.
  unfold show_birthday, input_error.
  destruct args as [ | a [ | b rest]]; run_body; try reflexivity.
  now destruct (AddressBook.find a book).
Qed.

Lemma show_all_reads book : snd (show_all error_text book) = book.
Proof. unfold show_all, input_error. run_body. now destruct book. Qed.

Lemma birthdays_reads book today :
  snd (birthdays error_text today book) = book.
Proof.
  unfold birthdays, input_error. run_body.
  destruct book as [ | kr rest]; [reflexivity | ].
  now destruct (AddressBook.get_upcoming_birthdays today (kr :: rest)).
Qed.

(** X20: The handlers that only show something ([phone], [show-birthday],
    [all], [birthdays]) return the book they were given, whatever the
    arguments and the date. *)
Theorem queries_leave_book_unchanged
    (book : AddressBook.t) (args : list string) (today : date) :
  snd (show_phone error_text args book) = book
  /\ snd (show_birthday error_text args book) = book
  /\ snd (show_all error_text book) = book
  /\ snd (birthdays error_text today book) = book.
Proof.
  split; [apply show_phone_reads | split; [apply show_birthday_reads | ]].
  split; [apply show_all_reads | apply birthdays_reads].
Qed.

Lemma add_contact_well_formed book args :
  well_formed book -> well_formed (snd (add_contact error_text args book)).
Proof.
  intros W. unfold add_contact. rewrite snd_input_error.
  destruct args as [ | name [ | phone [ | c rest]]]; try exact W.
  run_body. destruct (AddressBook.find name book) as [record | ].
  - destruct (Rec.find_phone phone record); [exact W | ].
    pose proof (on_record_well_formed name (Rec.add_phone phone) book
                  (add_phone_keeps_name phone) W) as OW.
    now destruct (AddressBook.on_record name (Rec.add_phone phone) book)
      as [[a | e] s'].
  - destruct (Rec.add_phone phone (Rec.init name)) as [[[] | e] record];
      [ | exact W].
    now apply add_record_well_formed.
Qed.

Lemma change_contact_well_formed book args :
  well_formed book ->
  well_formed (snd (change_contact error_text args book)).
Proof.
  intros W. unfold change_contact. rewrite snd_input_error.
  destruct args as [ | name [ | old [ | new [ | d rest]]]]; try exact W.
  run_body. destruct (AddressBook.find name book) as [record | ];
    [ | exact W].
  destruct (Rec.find_phone old record); [ | exact W].
  pose proof (on_record_well_formed name (Rec.edit_phone old new) book
                (fun r => proj1 (edit_phone_keeps_name old new r)) W)
    as OW.
  now destruct (AddressBook.on_record name (Rec.edit_phone old new) book)
    as [[a | e] s'].
Qed.

Lemma add_birthday_well_formed book args :
  well_formed book ->
  well_formed (snd (add_birthday error_text args book)).
Proof.
  intros W. unfold add_birthday. rewrite snd_input_error.
  destruct args as [ | name [ | birthday [ | c rest]]]; try exact W.
  run_body. destruct (AddressBook.find name book) as [record | ].
  - pose proof (on_record_well_formed name (Rec.add_birthday birthday)
                  book (add_birthday_keeps_name birthday) W) as OW.
    now destruct
          (AddressBook.on_record name (Rec.add_birthday birthday) book)
      as [[a | e] s'].
  - destruct (Rec.add_birthday birthday (Rec.init name))
      as [[[] | e] record]; [ | exact W].
    now apply add_record_well_formed.
Qed.

(** X21: The handlers that write ([add], [change], [add-birthday]) keep the book
    well formed, whatever their arguments: one entry per name, every
    record stored under its own name. *)
Theorem handlers_keep_well_formed
    (book : AddressBook.t) (args : list string) :
  well_formed book ->
  well_formed (snd (add_contact error_text args book))
  /\ well_formed (snd (change_contact error_text args book))
  /\ well_formed (snd (add_birthday error_text args book)).
Proof.
  intros W. split; [now apply add_contact_well_formed | ].
  split; [now apply change_contact_well_formed | ].
  now apply add_birthday_well_formed.
Qed.

(** X22: [all] answers "No contacts." exactly when the book is empty; otherwise
    it shows one rendering per contact, in the order of the book, joined
    by newlines. *)
Theorem show_all_lists_every_contact (book : AddressBook.t) :
  (fst (show_all error_text book) = "No contacts." <-> book = [])
  /\ (book <> [] ->
      show_all error_text book
      = (join AddressBook.newline (map Rec.str (AddressBook.values book)),
         book)).
Proof.
  unfold show_all, input_error. run_body.
  destruct book as [ | kr rest]; simpl.
  - split; [tauto | congruence].
  - split; [ | reflexivity]. split; [ | discriminate].
    intros E. exfalso. revert E.
    apply (QueryFacts.join_lines_not_no_contacts
             (Rec.str (snd kr) :: map Rec.str (AddressBook.values rest))).
    intros line [<- | I].
    + unfold Rec.str. eauto.
    + apply in_map_iff in I as (r & <- & _). unfold Rec.str. eauto.
Qed.

(** X23: A contact that [add] has just created is shown by [phone] with its
    name, its number and the placeholder for the missing birthday. *)
Theorem added_contact_is_shown
    (book : AddressBook.t) (name phone : string) (p : Phone.t) :
  AddressBook.find name book = None ->
  Phone.new phone = Ok p ->
  let book' := snd (add_contact error_text [name; phone] book) in
  show_phone error_text [name] book'
  = ("Contact name: " ++ name ++ ", birthday: ----------, phones: " ++ phone,
     book').
Proof.
  intros F N book'. subst book'. unfold add_contact, input_error.
  rewrite (body_add_contact_new name phone p book F N). simpl.
  rewrite <- (setitem_fresh name _ book F).
  unfold show_phone, input_error. run_body.
  rewrite find_setitem_same. simpl.
  pose proof (phone_new_accepts phone p N) as [Len _].
  apply phone_new_stores in N. subst p. unfold Rec.str. simpl.
  destruct phone; [discriminate Len | reflexivity].
Qed.

End Decorated.

End HandlerOps.

Module QueryEdges.
Import CalendarFacts QueryFacts AddressBook.

Lemma weekend_shift_cases occ :
  (0 <= weekday occ <= 4 /\ Spec.weekend_shift occ = 0)
  \/ (weekday occ = 5 /\ Spec.weekend_shift occ = 2)
  \/ (weekday occ = 6 /\ Spec.weekend_shift occ = 1).
Proof.
  unfold Spec.weekend_shift.
  assert (0 <= weekday occ < 7) as R by (apply Z.mod_pos_bound; lia).
  destruct (Z.eqb_spec (weekday occ) 5); [lia | ].
  destruct (Z.eqb_spec (weekday occ) 6); lia.
Qed.

Lemma congratulation_date_weekday occ :
  valid occ -> 0 <= weekday (Spec.congratulation_date occ) <= 4.
Proof.
  intros V. destruct (weekend_shift_cases occ) as [[W S] | Weekend].
  - unfold Spec.congratulation_date. rewrite S, Z.add_0_r.
    now rewrite (fromordinal_toordinal occ V).
  - rewrite (weekend_moves_to_monday occ V); [lia | tauto].
Qed.

(** X24: [_adjust_to_weekday] never fails on a date and never returns a
    Saturday or a Sunday: a weekday comes back as it is, a weekend day
    becomes a later day, at most two days on. *)
Theorem adjust_to_weekday_never_weekend (date_obj : date) :
  valid date_obj ->
  exists adjusted,
    _adjust_to_weekday date_obj = Ok adjusted
    /\ valid adjusted
    /\ 0 <= weekday adjusted <= 4
    /\ toordinal date_obj <= toordinal adjusted <= toordinal date_obj + 2
    /\ (0 <= weekday date_obj <= 4 <-> adjusted = date_obj).
Proof.
  intros V. exists (Spec.congratulation_date date_obj).
  destruct (congratulation_date_spec date_obj V) as [Va E].
  split; [now apply adjust_to_weekday_spec | ].
  split; [exact Va | ].
  split; [now apply congratulation_date_weekday | ].
  destruct (weekend_shift_cases date_obj) as [[W S] | [[W S] | [W S]]];
    rewrite S in E; (split; [lia | ]); split; intros H; try lia.
  - apply toordinal_inj; [exact Va | exact V | lia].
  - rewrite H in E. lia.
  - rewrite H in E. lia.
Qed.

Section Window.
Variable today : date.
Hypothesis today_valid : valid today.

(** X25: What one turn of the loop can do when the window fits the calendar: a
    line for a weekday between today and nine days from today, no line, or
    a [ValueError]. *)
Theorem congratulation_date_is_a_near_weekday
    (record : Rec.t) (b : Birthday.t) (acc : list string) :
  toordinal today + 7 <= MAXORDINAL ->
  try_body today record b acc = Ok acc
  \/ (exists msg, try_body today record b acc = Raise (ValueError msg))
  \/ (exists shown,
        try_body today record b acc
        = Ok (acc ++ [entry record shown])%list
        /\ valid shown
        /\ 0 <= weekday shown <= 4
        /\ toordinal today <= toordinal shown <= toordinal today + 9).
Proof.
  intros Fits. rewrite try_body_eq.
  destruct (candidate today (month (Birthday.value b))
              (day (Birthday.value b))) as [occ | e] eqn:C.
  - rewrite (within_days_ok today today_valid _ 7 occ
               (window_limit today today_valid Fits) C).
    simpl. destruct (Spec.in_windowb today occ 7) eqn:W; [ | now left].
    right; right. exists (Spec.congratulation_date occ).
    destruct (candidate_not_past today today_valid _ _ _ C) as [Vo _].
    rewrite (adjust_to_weekday_spec occ Vo). simpl.
    destruct (congratulation_date_spec occ Vo) as [Vs E].
    apply (in_windowb_spec today) in W. unfold Spec.in_window in W.
    split; [reflexivity | split; [exact Vs | split]].
    + now apply congratulation_date_weekday.
    + destruct (weekend_shift_cases occ) as [[_ S] | [[_ S] | [_ S]]]; lia.
  - rewrite (within_days_raise today _ 7 e C). simpl.
    destruct (candidate_raise today today_valid _ _ _ C) as [_ [msg ->]].
    right; left. eauto.
Qed.

Lemma within_days_overflow target_date occ :
  MAXORDINAL < toordinal today + 7 ->
  candidate today (month target_date) (day target_date) = Ok occ ->
  _is_date_within_days today target_date 7
  = Raise (OverflowError "date value out of range").
Proof.
  intros Late C. rewrite within_days_eq, C. simpl.
  destruct (candidate_not_past today today_valid _ _ _ C) as [Vo Le].
  rewrite (le_toordinal today occ today_valid Vo).
  replace (toordinal today <=? toordinal occ) with true
    by (symmetry; now apply Z.leb_le).
  unfold add_days.
  replace (toordinal today + 7 <=? MAXORDINAL) with false
    by (symmetry; apply Z.leb_gt; lia).
  now rewrite andb_false_r.
Qed.

Lemma loop_skips records rest acc :
  (forall r b, In r records -> Rec.birthday r = Some b ->
     exists e, candidate today (month (Birthday.value b))
                 (day (Birthday.value b)) = Raise e) ->
  loop today (records ++ rest) acc = loop today rest acc.
Proof.
  intros Skip. induction records as [ | r records IH]; [reflexivity | ].
  simpl. destruct (Rec.birthday r) as [b | ] eqn:B.
  - destruct (Skip r b) as [e C]; [now left | exact B | ].
    rewrite try_body_eq, (within_days_raise today _ 7 e C).
    destruct (candidate_raise today today_valid _ _ _ C) as [_ [msg ->]].
    simpl. apply IH. intros r' b' I. apply Skip. now right.
  - apply IH. intros r' b' I. apply Skip. now right.
Qed.

(** X26: In the last seven days of year 9999 the window passes the last date:
    for a birthday still to come this year the inclusion test raises
    [OverflowError], which the loop does not catch, so the query fails as
    soon as it reaches such a record. *)
Theorem window_past_last_day_overflows
    (before behind : AddressBook.t) (key : string) (record : Rec.t)
    (b : Birthday.t) (occ : date) :
  MAXORDINAL < toordinal today + 7 ->
  (forall r b', In r (values before) -> Rec.birthday r = Some b' ->
     exists e, candidate today (month (Birthday.value b'))
                 (day (Birthday.value b')) = Raise e) ->
  Rec.birthday record = Some b ->
  candidate today (month (Birthday.value b)) (day (Birthday.value b))
  = Ok occ ->
  _is_date_within_days today (Birthday.value b) 7
  = Raise (OverflowError "date value out of range")
  /\ get_upcoming_birthdays today (before ++ (key, record) :: behind)%list
     = Raise (OverflowError "date value out of range").
Proof.
  intros Late Skip B C.
  pose proof (within_days_overflow (Birthday.value b) occ Late C) as O.
  split; [exact O | ].
  unfold get_upcoming_birthdays, values. rewrite map_app.
  rewrite (loop_skips _ _ [] Skip). simpl. rewrite B.
  now rewrite try_body_eq, O.
Qed.

End Window.

End QueryEdges.

Module UtilsFacts.
Import RecordOps.



End UtilsFacts.

Module SessionFacts.
Import BookFacts HandlerOps.

Section Session.
Variable parse_input : string -> list string.
Variable error_text : exn -> string.

Lemma dispatch_reads today command args book :
  writes command = false ->
  snd (Main.dispatch error_text today command args book) = book.
Proof.
  unfold writes. rewrite !orb_false_iff. intros [[A C] B].
  unfold Main.dispatch. rewrite A, C, B.
  repeat match goal with
    | |- context [if (command =? ?c)%string then _ else _] =>
        destruct (command =? c)%string
    end;
    try reflexivity.
  - apply show_phone_reads.
  - apply show_all_reads.
  - apply show_birthday_reads.
  - apply birthdays_reads.
Qed.

Lemma dispatch_well_formed today command args book :
  well_formed book ->
  well_formed (snd (Main.dispatch error_text today command args book)).
Proof.
  intros W. unfold Main.dispatch.
  repeat match goal with
    | |- context [if (command =? ?c)%string then _ else _] =>
        destruct (command =? c)%string
    end;
    try exact W.
  - now apply add_contact_well_formed.
  - now apply change_contact_well_formed.
  - now rewrite show_phone_reads.
  - now rewrite show_all_reads.
  - now apply add_birthday_well_formed.
  - now rewrite show_birthday_reads.
  - now rewrite birthdays_reads.
Qed.

(** X28: Only [add], [change] and [add-birthday] write.  Any other command,
    known or not, leaves the book as it is; a session in which none of the
    three is typed ends with the book it started with, and that is the
    book saved on exit. *)
Theorem only_three_commands_write
    (keyboard : list (date * string)) (book : AddressBook.t)
    (stdout : string) :
  (forall today command args,
      writes command = false ->
      snd (Main.dispatch error_text today command args book) = book)
  /\ ((forall today line command args,
         In (today, line) keyboard ->
         parse_input line = command :: args ->
         writes command = false) ->
      final_book (Main.loop parse_input error_text keyboard book stdout)
      = book).
Proof.
  split; [intros today command args Q; now apply dispatch_reads | ].
  revert stdout. induction keyboard as [ | [today line] rest IH];
    intros stdout Quiet; simpl; [reflexivity | ].
  destruct (line =? "")%string.
  - apply IH. intros t l c a I. apply (Quiet t l c a). now right.
  - destruct (parse_input line) as [ | command args] eqn:P; [reflexivity | ].
    destruct ((command =? "close") || (command =? "exit"))%string;
      [reflexivity | ].
    pose proof (dispatch_reads today command args book
                  (Quiet today line command args (or_introl eq_refl) P))
      as Same.
    destruct (Main.dispatch error_text today command args book) as [text book'].
    simpl in Same. subst book'.
    apply IH. intros t l c a I. apply (Quiet t l c a). now right.
Qed.

Lemma loop_well_formed keyboard book stdout :
  well_formed book ->
  well_formed
    (final_book (Main.loop parse_input error_text keyboard book stdout)).
Proof.
  revert book stdout. induction keyboard as [ | [today line] rest IH];
    intros book stdout W; simpl; [exact W | ].
  destruct (line =? "")%string; [now apply IH | ].
  destruct (parse_input line) as [ | command args]; [exact W | ].
  destruct ((command =? "close") || (command =? "exit"))%string;
    [exact W | ].
  pose proof (dispatch_well_formed today command args book W) as W'.
  destruct (Main.dispatch error_text today command args book) as [text book'].
  now apply IH.
Qed.

(** X29: Whatever is typed, a session that starts from no file, or from a
    well-formed book, ends with a well-formed book: one entry per name,
    every record under its own name. *)
Theorem session_keeps_book_well_formed
    (file : option AddressBook.t) (keyboard : list (date * string)) :
  (forall book, file = Some book -> well_formed book) ->
  well_formed (final_book (Main.main parse_input error_text file keyboard)).
Proof.
  intros W. unfold Main.main. apply loop_well_formed.
  destruct file as [book | ]; simpl; [now apply W | ].
  split; constructor.
Qed.


End Session.

End SessionFacts.

Module MoreExamples.
Import BookFacts RecordOps HandlerOps QueryEdges SessionFacts.

Ltac calendar_date := unfold valid; vm_compute; repeat split; discriminate.
Ltac unique_keys :=
  repeat (constructor; [simpl; intuition discriminate | ]); constructor.
Ltac own_names := repeat (constructor; [reflexivity | ]); constructor.
Ltac book_ok := split; [unique_keys | own_names].

Lemma delete_undoes_add_record_witness :
  book_after (AddressBook.delete "Ann")
    (book_after (AddressBook.add_record (contact "Ann" ["0987654321"] None))
       (john ["1111111111"]))
  = john ["1111111111"].
Proof.
  apply (delete_undoes_add_record (contact "Ann" ["0987654321"] None)
           (john ["1111111111"])).
  reflexivity.
Defined.

Lemma keep_well_formed_witness :
  let book := john ["0987654321"] in
  well_formed book
  /\ well_formed
       (book_after (AddressBook.add_record (contact "Ann" [] None)) book)
  /\ well_formed (book_after (AddressBook.delete "John") book)
  /\ (forall stored,
        AddressBook.find "John" book = Some stored ->
        (List.length (book_after (AddressBook.delete "John") book) + 1
         = List.length book)%nat).
Proof.
  intros book.
  assert (well_formed book) as W by book_ok.
  split; [exact W | ].
  apply (add_record_and_delete_keep_well_formed book
           (contact "Ann" [] None) "John" W).
Defined.

Lemma rejected_number_witness :
  let record := contact "John" ["0987654321"] None in
  let e := ValidationError "Phone number must be 10 digits" in
  Rec.add_phone "123456789" record = (Raise e, record)
  /\ Rec.edit_phone "0987654321" "123456789" record = (Raise e, record).
Proof.
  intros record e.
  apply (rejected_number_changes_nothing "123456789" "0987654321" e record).
  reflexivity.
Defined.

(** The same number added a second time is stored a second time. *)
Lemma add_phone_twice_witness :
  let record := contact "John" ["0987654321"] None in
  let record' := after (Rec.add_phone "0987654321") record in
  Rec.add_phone "0987654321" record = (Ok tt, record')
  /\ Rec.phones record'
     = (Rec.phones record ++ [Phone.mk "0987654321"])%list
  /\ count_occ string_dec (phone_values record') "0987654321"
     = S (count_occ string_dec (phone_values record) "0987654321")
  /\ (~ In "0987654321" (phone_values record) ->
      after (Rec.remove_phone "0987654321") record' = record).
Proof.
  intros record.
  apply (add_phone_appends_without_dedup "0987654321"
           (Phone.mk "0987654321") record).
  reflexivity.
Defined.

Lemma edit_phone_absent_old_witness :
  Rec.edit_phone "5555555555" "1111111111"
    (contact "John" ["0987654321"] None)
  = (Ok tt, contact "John" ["0987654321"; "1111111111"] None).
Proof.
  apply (edit_phone_absent_old_only_adds "5555555555" "1111111111"
           (Phone.mk "1111111111") (contact "John" ["0987654321"] None)).
  - reflexivity.
  - discriminate.
  - simpl. intros [E | []]. discriminate E.
Defined.

Lemma add_contact_creates_witness :
  Handlers.add_contact (fun _ => "error") ["Ann"; "1111111111"]
    (john ["0987654321"])
  = ("Contact added.",
     [("John", contact "John" ["0987654321"] None);
      ("Ann", contact "Ann" ["1111111111"] None)]).
Proof.
  apply (add_contact_creates_contact (fun _ => "error")
           (john ["0987654321"]) "Ann" "1111111111" (Phone.mk "1111111111"));
    reflexivity.
Defined.

Lemma add_contact_extends_witness :
  let add :=
    Handlers.add_contact (fun _ => "error") ["John"; "1111111111"] in
  let book := john ["0987654321"] in
  fst (add book) = "Phone number added to existing contact John."
  /\ AddressBook.find "John" (snd (add book))
     = Some (contact "John" ["0987654321"; "1111111111"] None)
  /\ keys (snd (add book)) = keys book
  /\ (forall other, other <> "John" ->
        AddressBook.find other (snd (add book))
        = AddressBook.find other book).
Proof.
  apply (add_contact_extends_contact (fun _ => "error")
           (john ["0987654321"]) "John" "1111111111" (Phone.mk "1111111111")
           (contact "John" ["0987654321"] None)).
  - reflexivity.
  - simpl. intros [E | []]. discriminate E.
  - reflexivity.
Defined.

Lemma add_contact_known_number_witness :
  let book := john ["0987654321"] in
  let args := ["John"; "0987654321"] in
  (forall name phone record,
      args = [name; phone] ->
      AddressBook.find name book = Some record ->
      In phone (phone_values record) ->
      Handlers.add_contact (fun _ => "error") args book
      = ("Contact " ++ name ++ " already has this phone number.", book))
  /\ (forall name record,
        In (name, record)
           (snd (Handlers.add_contact (fun _ => "error") args book)) ->
        NoDup (phone_values record)).
Proof.
  apply (add_contact_keeps_numbers_distinct (fun _ => "error")
           (john ["0987654321"]) ["John"; "0987654321"]).
  intros name record [[= <- <-] | []]. unique_keys.
Defined.

(** Scenario D of the specification: a nine-digit number is rejected and
    the book stays empty. *)
Lemma rejected_add_witness :
  let e := ValidationError "Phone number must be 10 digits" in
  let book : AddressBook.t := [] in
  ((forall record, AddressBook.find "John" book = Some record ->
                   ~ In "123456789" (phone_values record)) ->
   Handlers.Body.add_contact ["John"; "123456789"] book = (Raise e, book)
   /\ Handlers.add_contact (fun _ => "error") ["John"; "123456789"] book
      = ("error", book))
  /\ (forall record,
        AddressBook.find "John" book = Some record ->
        In "0987654321" (phone_values record) ->
        Handlers.Body.change_contact ["John"; "0987654321"; "123456789"]
          book
        = (Raise e, book)
        /\ Handlers.change_contact (fun _ => "error")
             ["John"; "0987654321"; "123456789"] book
           = ("error", book)).
Proof.
  intros e book.
  apply (rejected_number_leaves_book_unchanged (fun _ => "error") book
           "John" "0987654321" "123456789" e).
  reflexivity.
Defined.

Lemma change_contact_witness :
  let change :=
    Handlers.change_contact (fun _ => "error")
      ["John"; "0987654321"; "1111111111"] in
  let record := contact "John" ["0987654321"; "5555555555"] None in
  let book := [("Ann", contact "Ann" [] None); ("John", record)] in
  fst (change book) = "Contact updated."
  /\ keys (snd (change book)) = keys book
  /\ (forall other, other <> "John" ->
        AddressBook.find other (snd (change book))
        = AddressBook.find other book)
  /\ exists record',
       AddressBook.find "John" (snd (change book)) = Some record'
       /\ Rec.name record' = Rec.name record
       /\ Rec.birthday record' = Rec.birthday record
       /\ phone_values record'
          = filter (fun v => negb (v =? "0987654321")%string)
              (phone_values record ++ ["1111111111"]).
Proof.
  intros change record book.
  apply (change_contact_touches_one_contact (fun _ => "error") book "John"
           "0987654321" "1111111111" (Phone.mk "1111111111") record).
  - reflexivity.
  - simpl. now left.
  - reflexivity.
Defined.

Lemma add_birthday_witness :
  let add :=
    Handlers.add_birthday (fun _ => "error") ["John"; "08.06.1990"] in
  let b := Birthday.mk (mkdate 1990 6 8) in
  let book := john ["0987654321"] in
  (AddressBook.find "John" book = None ->
   add book
   = ("Contact with birthday added.",
      (book ++ [("John", Rec.mk (Name.new "John") [] (Some b))])%list))
  /\ (forall record,
        AddressBook.find "John" book = Some record ->
        Rec.birthday record = None ->
        fst (add book) = "Birthday added to existing contact John."
        /\ AddressBook.find "John" (snd (add book))
           = Some (Rec.mk (Rec.name record) (Rec.phones record) (Some b))
        /\ keys (snd (add book)) = keys book
        /\ (forall other, other <> "John" ->
              AddressBook.find other (snd (add book))
              = AddressBook.find other book)).
Proof.
  intros add b book.
  apply (add_birthday_stores_birthday (fun _ => "error") book "John"
           "08.06.1990" b).
  vm_compute. reflexivity.
Defined.

Lemma handlers_keep_well_formed_witness :
  let book := john ["0987654321"] in
  let args := ["Ann"; "1111111111"] in
  well_formed (snd (Handlers.add_contact (fun _ => "error") args book))
  /\ well_formed (snd (Handlers.change_contact (fun _ => "error") args book))
  /\ well_formed (snd (Handlers.add_birthday (fun _ => "error") args book)).
Proof.
  intros book args.
  apply (handlers_keep_well_formed (fun _ => "error") book args).
  book_ok.
Defined.

Lemma added_contact_is_shown_witness :
  Handlers.show_phone (fun _ => "error") ["John"]
    (snd (Handlers.add_contact (fun _ => "error") ["John"; "0987654321"] []))
  = ("Contact name: John, birthday: ----------, phones: 0987654321",
     john ["0987654321"]).
Proof.
  apply (added_contact_is_shown (fun _ => "error") [] "John" "0987654321"
           (Phone.mk "0987654321")); reflexivity.
Defined.

(** Saturday 14.06.2025 becomes Monday 16.06.2025. *)
Lemma adjust_to_weekday_witness :
  exists adjusted,
    AddressBook._adjust_to_weekday (mkdate 2025 6 14) = Ok adjusted
    /\ valid adjusted
    /\ 0 <= weekday adjusted <= 4
    /\ toordinal (mkdate 2025 6 14) <= toordinal adjusted
       <= toordinal (mkdate 2025 6 14) + 2
    /\ (0 <= weekday (mkdate 2025 6 14) <= 4
        <-> adjusted = mkdate 2025 6 14).
Proof.
  apply (adjust_to_weekday_never_weekend (mkdate 2025 6 14)).
  calendar_date.
Defined.

Lemma near_weekday_witness :
  let today := mkdate 2025 6 10 in
  let record := contact "Cara" [] (Some (mkdate 1992 6 15)) in
  let b := Birthday.mk (mkdate 1992 6 15) in
  AddressBook.try_body today record b [] = Ok []
  \/ (exists msg,
        AddressBook.try_body today record b [] = Raise (ValueError msg))
  \/ (exists shown,
        AddressBook.try_body today record b []
        = Ok ([] ++ [AddressBook.entry record shown])%list
        /\ valid shown
        /\ 0 <= weekday shown <= 4
        /\ toordinal today <= toordinal shown <= toordinal today + 9).
Proof.
  intros today record b.
  apply (congratulation_date_is_a_near_weekday today ltac:(calendar_date)
           record b []).
  vm_compute. discriminate.
Defined.

(** Tuesday 28.12.9999: a birthday on 30 December stops the query. *)
Lemma overflow_witness :
  let today := mkdate 9999 12 28 in
  let record := contact "Eve" [] (Some (mkdate 1990 12 30)) in
  AddressBook._is_date_within_days today (mkdate 1990 12 30) 7
  = Raise (OverflowError "date value out of range")
  /\ AddressBook.get_upcoming_birthdays today
       ([] ++ ("Eve", record) :: [])%list
     = Raise (OverflowError "date value out of range").
Proof.
  intros today record.
  apply (window_past_last_day_overflows today ltac:(calendar_date) [] []
           "Eve" record (Birthday.mk (mkdate 1990 12 30))
           (mkdate 9999 12 30)).
  - reflexivity.
  - intros r b' [].
  - reflexivity.
  - vm_compute. reflexivity.
Defined.

Lemma session_well_formed_witness :
  let parse_input := fun line : string =>
    if (line =? "add John 0987654321")%string
    then ["add"; "John"; "0987654321"]
    else [line] in
  let keyboard :=
    [(mkdate 2025 6 10, "add John 0987654321"); (mkdate 2025 6 10, "all");
     (mkdate 2025 6 10, "exit")] in
  final_book (Main.main parse_input (fun _ => "error") None keyboard)
  = john ["0987654321"]
  /\ well_formed
       (final_book (Main.main parse_input (fun _ => "error") None keyboard)).
Proof.
  intros parse_input keyboard. split; [reflexivity | ].
  apply (session_keeps_book_well_formed parse_input (fun _ => "error") None
           keyboard).
  discriminate.
Defined.


End MoreExamples.
